(** * Brainrot video generator: caption timing, platform truncation,
      text cleaning, background preparation and fallbacks

    A shallow embedding of the pure and effectful glue code of the
    PDF-to-video pipeline, with the properties its specification states.

    Conventions of the embedding.
    - A Python [str] is a list of Unicode code points ([N]).
    - A Python [int] is a [Z]; [len] results are [nat].
    - A finite Python [float] is the rational it denotes ([Q]); equalities
      between durations are stated with [==] ([Qeq]).  Arithmetic on word
      counts and frame sizes is written exactly where no rounding changes
      what is stated; where the rounding of binary64 decides the outcome
      (the quotient of two durations, a word budget, the drift between
      duration estimates) every operation is followed by the rounding
      [PyFloat.fl].  A float that may be infinite or NaN is a
      [PyFloat.float].
    - A dict read through a fixed set of keys is a record, an absent key
      being [None]; a dict literal used as a table is a list of key/value
      pairs.
    - An exception is a [Raise] result; calls to services and to the
      encoder take their outcome as an argument. *)

From Stdlib Require Import Strings.String Strings.Ascii Numbers.DecimalString.
From Stdlib Require Import List Bool Arith ZArith NArith QArith Qround Qpower.
From Stdlib Require Import Qabs Lia Lqa.
Import ListNotations.

Local Open Scope list_scope.

(** ** Python strings *)

Module PyStr.

(** A string is the list of its code points. *)
Definition str := list N.

(** A string literal, as the list of its code points. *)
Definition lit (s : string) : str :=
  List.map N_of_ascii (list_ascii_of_string s).

(** [str.isspace] on one code point: the Unicode whitespace characters
    that [str.split()] and [str.strip()] recognise. *)
Definition isspace (c : N) : bool :=
  ((9 <=? c) && (c <=? 13) || (28 <=? c) && (c <=? 32)
   || (c =? 133) || (c =? 160) || (c =? 5760)
   || (8192 <=? c) && (c <=? 8202)
   || (c =? 8232) || (c =? 8233) || (c =? 8239) || (c =? 8287)
   || (c =? 12288))%N.

(** [s.split()]: the maximal runs of non-whitespace characters, in order. *)
Fixpoint split (s : str) : list str :=
  match s with
  | [] => []
  | c :: t =>
      if isspace c then split t
      else match t with
           | [] => [[c]]
           | d :: _ =>
               if isspace d then [c] :: split t
               else match split t with
                    | w :: ws => (c :: w) :: ws
                    | [] => [[c]]
                    end
           end
  end.

(** [sep.join(parts)]. *)
Fixpoint join (sep : str) (parts : list str) : str :=
  match parts with
  | [] => []
  | [p] => p
  | p :: rest => p ++ sep ++ join sep rest
  end.

(** [s.lstrip()], [s.rstrip()], [s.strip()]. *)
Fixpoint lstrip (s : str) : str :=
  match s with
  | [] => []
  | c :: t => if isspace c then lstrip t else s
  end.

Definition rstrip (s : str) : str := rev (lstrip (rev s)).

Definition strip (s : str) : str := rstrip (lstrip s).

(** [s.startswith(p)]. *)
Fixpoint startswith (p s : str) : bool :=
  match p, s with
  | [], _ => true
  | _ :: _, [] => false
  | a :: p', b :: s' => (a =? b)%N && startswith p' s'
  end.

(** [p in s]: [p] occurs in [s] as a contiguous substring. *)
Fixpoint contains (p s : str) : bool :=
  startswith p s ||
  match s with
  | [] => false
  | _ :: t => contains p t
  end.

(** [s.replace(old, new)] scans left to right and replaces every
    non-overlapping occurrence.  [skip] counts the characters of a matched
    occurrence that are still to be passed over. *)
Fixpoint replace_from (old new : str) (skip : nat) (s : str) : str :=
  match s with
  | [] => match old, skip with
          | [], O => new
          | _, _ => []
          end
  | c :: t =>
      match skip with
      | S k => replace_from old new k t
      | O =>
          if startswith old s then
            match old with
            | [] => new ++ c :: replace_from old new 0 t
            | _ :: _ => new ++ replace_from old new (length old - 1) t
            end
          else c :: replace_from old new 0 t
      end
  end.

Definition replace (old new s : str) : str := replace_from old new 0 s.

(** [str(n)] for an [int]. *)
Definition str_of_int (n : Z) : str :=
  lit (NilZero.string_of_int (Z.to_int n)).

(** [int(q)] for a [float]: truncation towards zero. *)
Definition int_of_float (q : Q) : Z := Z.quot (Qnum q) (Zpos (Qden q)).

(** [l[:n]] for a list. *)
Definition slice_to {A} (n : Z) (l : list A) : list A :=
  if (0 <=? n)%Z then firstn (Z.to_nat n) l
  else firstn (length l - Z.to_nat (- n)) l.

(** Lookup in a dict literal written as a list of key/value pairs. *)
Fixpoint dict_get {V} (key : str) (d : list (str * V)) : option V :=
  match d with
  | [] => None
  | (k, v) :: rest =>
      if list_eq_dec N.eq_dec key k then Some v else dict_get key rest
  end.

(** [s.split(sep)] for a separator of one character: the pieces between
    the separators, empty pieces included; never the empty list. *)
Fixpoint split_on (sep : N) (s : str) : list str :=
  match s with
  | [] => [[]]
  | c :: t =>
      if (c =? sep)%N then [] :: split_on sep t
      else match split_on sep t with
           | w :: ws => (c :: w) :: ws
           | [] => [[c]]
           end
  end.

(** [l[a:b]] for a list and non-negative bounds. *)
Definition slice {A} (a b : nat) (l : list A) : list A :=
  firstn (b - a) (skipn a l).

(** [x in l] for a list of strings. *)
Definition in_list (x : str) (l : list str) : bool :=
  existsb (fun y => if list_eq_dec N.eq_dec x y then true else false) l.

End PyStr.

Import PyStr.

(** ** Exceptions *)

Inductive exn :=
| ZeroDivisionError
| KeyError
| CalledProcessError
| FileNotFoundError
| APIError
| JSONDecodeError
| RetryError
| ValueError
| OverflowError.

Inductive result (A : Type) :=
| Ok (a : A)
| Raise (e : exn).

Arguments Ok {A} a.
Arguments Raise {A} e.

(** ** Python floats *)

Module PyFloat.

(** A binary64 value: a finite one, given by the rational it denotes, an
    infinity or NaN. *)
Inductive float :=
| Finite (q : Q)
| Inf (negative : bool)
| NaN.

(** [a < b]: false as soon as one side is NaN. *)
Definition lt (a b : float) : bool :=
  match a, b with
  | Finite p, Finite q => negb (Qle_bool q p)
  | Finite _, Inf negative => negb negative
  | Inf negative, Finite _ => negative
  | Inf n1, Inf n2 => n1 && negb n2
  | NaN, _ | _, NaN => false
  end.

(** The nearest integer, the even one of two that are equally near. *)
Definition round_half_even (s : Q) : Z :=
  let f := Qfloor s in
  match Qcompare (s - inject_Z f) (1 # 2) with
  | Lt => f
  | Gt => (f + 1)%Z
  | Eq => if Z.even f then f else (f + 1)%Z
  end.

(** [floor(log2 q)] for a positive [q]. *)
Definition ilog2 (q : Q) : Z :=
  let l := (Z.log2 (Qnum q) - Z.log2 (Z.pos (Qden q)))%Z in
  if Qle_bool (2 ^ l) q then l else (l - 1)%Z.

(** Rounding of a positive real to binary64, to nearest, ties to even: a
    significand of 53 bits at the exponent of [q], which is not taken below
    -1074 (subnormal numbers). *)
Definition round_pos (q : Q) : Q :=
  let e := Z.max (ilog2 q - 52) (-1074) in
  inject_Z (round_half_even (q / 2 ^ e)) * 2 ^ e.

(** The rounding of the exact result of an operation, before overflow. *)
Definition fl (q : Q) : Q :=
  match Qnum q with
  | Z0 => 0
  | Zpos _ => round_pos q
  | Zneg _ => - round_pos (- q)
  end.

(** The largest finite value. *)
Definition max_float : Q := inject_Z (2 ^ 53 - 1) * 2 ^ 971.

(** The float an operation returns for the exact result [q]: what is
    rounded beyond the largest finite value is an infinity. *)
Definition round64 (q : Q) : float :=
  let r := fl q in
  if Qle_bool (Qabs r) max_float then Finite r
  else Inf (negb (Qle_bool 0 q)).

(** The unit roundoff, 2^-53. *)
Definition unit_roundoff : Q := 1 # 9007199254740992.

(** [int(x)]: truncation toward zero. *)
Definition int (x : float) : result Z :=
  match x with
  | Finite q => Ok (int_of_float q)
  | Inf _ => Raise OverflowError
  | NaN => Raise ValueError
  end.

End PyFloat.

(** ** content_generator.py *)

Module ContentGenerator.

(** A caption dictionary, keys ['text'], ['start'], ['duration'], ['end']. *)
Record caption := mk_caption
  { text : str; start : Q; duration : Q; end_ : Q }.

(** Body of the first loop of [generate_captions]: one word is appended to
    the current segment, which is flushed once it has [words_per_caption]
    words. *)
Definition group_step (words_per_caption : Z)
    (st : list str * list str) (word : str) : list str * list str :=
  let '(captions, current_segment) := st in
  let current_segment := current_segment ++ [word] in
  if (Z.of_nat (length current_segment) >=? words_per_caption)%Z
  then (captions ++ [join (lit " ") current_segment], [])
  else (captions, current_segment).

Definition words_per_second : Q := 150 / 60.

(** Body of the second loop: timing of one caption. *)
Definition timing_step (st : list caption * Q) (caption_text : str)
    : list caption * Q :=
  let '(caption_data, current_time) := st in
  let word_count := length (split caption_text) in
  let duration := inject_Z (Z.of_nat word_count) / words_per_second in
  (caption_data ++
     [ {| text := caption_text; start := current_time;
          duration := duration; end_ := current_time + duration |} ],
   current_time + duration).

(** The caption strings built by the grouping loop and the trailing
    ["if current_segment"] flush. *)
Definition caption_texts (script : str) (words_per_caption : Z) : list str :=
  let words := split script in
  let '(captions, current_segment) :=
    fold_left (group_step words_per_caption) words ([], []) in
  match current_segment with
  | [] => captions
  | _ :: _ => captions ++ [join (lit " ") current_segment]
  end.

Definition generate_captions (script : str) (words_per_caption : Z)
    : list caption :=
  fst (fold_left timing_step (caption_texts script words_per_caption)
         ([], 0)).

(** Values of the [platform_limits] table. *)
Record limits := mk_limits { max_duration : Z; optimal_duration : Z }.

Definition platform_limits : list (str * limits) :=
  [ (lit "tiktok", {| max_duration := 180; optimal_duration := 60 |});
    (lit "instagram", {| max_duration := 90; optimal_duration := 30 |});
    (lit "youtube", {| max_duration := 60; optimal_duration := 45 |}) ].

(** The local [estimated_duration] of [optimize_for_platform]:
    [(word_count / 150) * 60]. *)
Definition estimated_duration (script : str) : Q :=
  (inject_Z (Z.of_nat (length (split script))) / 150) * 60.

Definition optimize_for_platform (script platform : str) : str :=
  match dict_get platform platform_limits with
  | None => script
  | Some limits =>
      if Qle_bool (estimated_duration script)
                  (inject_Z (optimal_duration limits))
      then script
      else
        let target_words :=
          int_of_float ((inject_Z (optimal_duration limits) / 60) * 150) in
        let words := slice_to target_words (split script) in
        let words :=
          if length words <? length (split script)
          then words ++ [lit "..."] else words in
        join (lit " ") words
  end.

(** *** [generate_summary] under [@retry]

    The chat-completion endpoint is an oracle: the outcome of its [n]-th
    call.  The world records how many calls were made and the waits slept
    between attempts. *)
Record world := mk_world { api_calls : nat; sleeps : list Z }.

Definition service := nat -> result str.

(** The model's reply once parsed: the keys it carries. *)
Record content := mk_content
  { title : option str; script_field : option str; raw : str }.

Section Summary.

Variable json_loads : str -> result content.

(** [client.chat.completions.create(...)]: one more call to the oracle. *)
Definition chat_create (svc : service) (w : world) : result str * world :=
  (svc (api_calls w),
   {| api_calls := S (api_calls w); sleeps := sleeps w |}).

(** The undecorated body of [generate_summary]: the whole body sits in
    [try ... except Exception: return None]. *)
Definition generate_summary_body (svc : service) (w : world)
    : result (option content) * world :=
  match chat_create svc w with
  | (Raise _, w') => (Ok None, w')
  | (Ok reply, w') =>
      match json_loads reply with
      | Raise _ => (Ok None, w')
      | Ok c =>
          match title c, script_field c with
          | Some _, Some _ => (Ok (Some c), w')
          | _, _ => (Ok None, w')
          end
      end
  end.

(** [wait_exponential(multiplier=1, min=4, max=10)]. *)
Definition wait_exponential (attempt_number : nat) : Z :=
  Z.max 4 (Z.min (1 * 2 ^ Z.of_nat (attempt_number - 1)) 10).

(** tenacity's [@retry(stop=stop_after_attempt(n), wait=...)]: the call is
    repeated while it raises; a normal return, whatever its value, ends the
    loop.  [remaining] is the number of attempts still allowed after the
    current one. *)
Fixpoint retry_loop {A} (f : world -> result A * world)
    (attempt_number remaining : nat) (w : world) : result A * world :=
  match f w with
  | (Ok a, w') => (Ok a, w')
  | (Raise e, w') =>
      match remaining with
      | O => (Raise RetryError, w')
      | S r =>
          retry_loop f (S attempt_number) r
            {| api_calls := api_calls w';
               sleeps := sleeps w' ++ [wait_exponential attempt_number] |}
      end
  end.

Definition retry {A} (stop_after_attempt : nat)
    (f : world -> result A * world) : world -> result A * world :=
  retry_loop f 1 (stop_after_attempt - 1).

Definition generate_summary (svc : service)
    : world -> result (option content) * world :=
  retry 3 (generate_summary_body svc).

End Summary.

(** The local [target_words] of [generate_summary]:
    [int((max_duration / 60) * 150)], the quotient and the product rounded
    as binary64 rounds them ([max_duration] is a number of seconds: the
    quotient of the two integers does not overflow). *)
Definition summary_target_words (max_duration : Z) : result Z :=
  PyFloat.int
    (PyFloat.round64 (PyFloat.fl (inject_Z max_duration / 60) * 150)).

End ContentGenerator.

Import ContentGenerator.

(** ** voice_generator.py *)

Module VoiceGenerator.

(** [estimate_duration], every float operation followed by its rounding;
    the speed is a finite float, and the operands are too small for a result
    to overflow. *)
Definition estimate_duration (text : str) (speed : Q) : result Q :=
  let word_count := length (split text) in
  let base_duration :=
    PyFloat.fl (PyFloat.fl (inject_Z (Z.of_nat word_count) / 150) * 60) in
  if Qeq_bool speed 0 then Raise ZeroDivisionError
  else Ok (PyFloat.fl (base_duration / speed)).

(** [validate_text_length]: the verdict and its message. *)
Definition validate_text_length (service text : str) : bool * str :=
  if (length text =? 0)%nat || (length (strip text) =? 0)%nat
  then (false, lit "Text is empty")
  else if in_list service [lit "openai"] && (4096 <? length text)%nat
  then (false,
        lit "Text too long (" ++ str_of_int (Z.of_nat (length text))
          ++ lit " > 4096 characters)")
  else (true, lit "Text is valid").

(** The dictionary [get_voice_options] returns, as key/value pairs. *)
Definition get_voice_options (service : str) : list (str * str) :=
  if in_list service [lit "openai"] then
    [ (lit "alloy", lit "Neutral, balanced tone");
      (lit "echo", lit "Warm, conversational");
      (lit "fable", lit "Expressive, energetic");
      (lit "onyx", lit "Deep, authoritative");
      (lit "nova", lit "Friendly, upbeat (recommended)");
      (lit "shimmer", lit "Soft, gentle") ]
  else [].

(** The keyword arguments of [client.audio.speech.create]. *)
Record speech_request := mk_speech_request
  { req_model : str; req_voice : str; req_input : str;
    req_speed : PyFloat.float }.

Definition valid_voices : list str :=
  [lit "alloy"; lit "echo"; lit "fable"; lit "onyx"; lit "nova"; lit "shimmer"].

(** [max(a, b)] and [min(a, b)]: the second argument is returned only when
    it compares greater, respectively smaller, than the first. *)
Definition py_max (a b : PyFloat.float) : PyFloat.float :=
  if PyFloat.lt a b then b else a.
Definition py_min (a b : PyFloat.float) : PyFloat.float :=
  if PyFloat.lt b a then b else a.

Section TTS.

(** The endpoint ([speech_create], the response it returns or the exception
    it raises), saving the response ([stream_to_file], with the directory
    creation before it), [str(Path(p))] and the default path under the
    temporary directory. *)
Variable speech_create : speech_request -> result unit.
Variable stream_to_file : str -> result unit.
Variable path_str : str -> str.
Variable temp_path : str.

(** [_generate_openai]: the requests sent and the value returned.  The
    speed is any float, NaN and the infinities included. *)
Definition _generate_openai (text : str) (output_path : option str)
    (voice : str) (speed : PyFloat.float)
    : list speech_request * option str :=
  let speed :=
    if PyFloat.lt speed (PyFloat.Finite (1 # 4))
       || PyFloat.lt (PyFloat.Finite 4) speed
    then py_max (PyFloat.Finite (1 # 4)) (py_min (PyFloat.Finite 4) speed)
    else speed in
  let voice := if in_list voice valid_voices then voice else lit "nova" in
  let request :=
    {| req_model := lit "tts-1-hd"; req_voice := voice;
       req_input := text; req_speed := speed |} in
  match speech_create request with
  | Raise _ => ([request], None)
  | Ok _ =>
      let output_path :=
        match output_path with
        | None | Some [] => temp_path
        | Some p => path_str p
        end in
      match stream_to_file output_path with
      | Raise _ => ([request], None)
      | Ok _ => ([request], Some output_path)
      end
  end.

(** [generate_audio] for a generator whose [service] attribute is given. *)
Definition generate_audio (service text : str) (output_path : option str)
    (voice : str) (speed : PyFloat.float)
    : list speech_request * option str :=
  if in_list service [lit "openai"]
  then _generate_openai text output_path voice speed
  else ([], None).

End TTS.

(** The attributes [__init__] sets. *)
Record voice_generator := mk_voice_generator
  { service : str; api_key : str }.

(** The exceptions of [__init__]. *)
Inductive init_error :=
| ValueError
| NotImplementedError.

(** [a or b] for optional strings: the first that is neither [None] nor
    empty, else the second. *)
Definition or_str (a b : option str) : option str :=
  match a with
  | Some (c :: t) => Some (c :: t)
  | _ => b
  end.

(** [VoiceGenerator.__init__]: [env_key] is [os.getenv("OPENAI_API_KEY")],
    [client] the outcome of constructing the OpenAI client. *)
Definition __init__ (api_key env_key : option str) (service : str)
    (client : result unit) : voice_generator + init_error :=
  if in_list service [lit "openai"] then
    match or_str api_key env_key with
    | Some (c :: t) =>
        match client with
        | Ok _ => inl {| service := service; api_key := c :: t |}
        | Raise _ => inr ValueError
        end
    | _ => inr ValueError
    end
  else inr NotImplementedError.

End VoiceGenerator.

(** ** The duration estimates as the machine computes them *)

Module Binary64.

(** The timing loop of [generate_captions] and the estimate of
    [optimize_for_platform], with the rounding [fl] of every float operation
    written out.  With the identity for [fl] they are the exact computations
    of [ContentGenerator], on which the properties that no rounding affects
    are stated; with [PyFloat.fl] they are what the program computes (the
    operands are word counts: no result overflows). *)
Section Rounded.

Variable fl : Q -> Q.

Definition words_per_second : Q := fl (150 / 60).

Definition timing_step (st : list caption * Q) (caption_text : str)
    : list caption * Q :=
  let '(caption_data, current_time) := st in
  let word_count := length (split caption_text) in
  let duration := fl (inject_Z (Z.of_nat word_count) / words_per_second) in
  (caption_data ++
     [ {| text := caption_text; start := current_time;
          duration := duration; end_ := fl (current_time + duration) |} ],
   fl (current_time + duration)).

Definition generate_captions (script : str) (words_per_caption : Z)
    : list caption :=
  fst (fold_left timing_step (caption_texts script words_per_caption)
         ([], 0)).

(** [sum(c['duration'] for c in captions)]. *)
Definition total_duration (captions : list caption) : Q :=
  fold_left (fun acc c => fl (acc + duration c)) captions 0.

(** The local [estimated_duration] of [optimize_for_platform]. *)
Definition estimated_duration (script : str) : Q :=
  fl (fl (inject_Z (Z.of_nat (length (split script))) / 150) * 60).

End Rounded.

End Binary64.

(** ** pdf_processor.py *)

Module PDFProcessor.

(** [while old in text: text = text.replace(old, new)], with a bound on the
    number of iterations; [None] when the bound is reached. *)
Fixpoint replace_while (old new : str) (fuel : nat) (text : str)
    : option str :=
  match fuel with
  | O => None
  | S fuel' =>
      if contains old text
      then replace_while old new fuel' (replace old new text)
      else Some text
  end.

Definition _clean_text (text : str) : option str :=
  match replace_while [10; 10; 10]%N [10; 10]%N (S (length text)) text with
  | None => None
  | Some text =>
      match replace_while (lit "  ") (lit " ") (S (length text)) text with
      | None => None
      | Some text => Some (strip text)
      end
  end.

(** What the processor sees of a file: whether the path exists, its
    suffix in lower case ([pdf_path.suffix.lower()]), its size in bytes, and
    what [pdfplumber.open] gives: an exception, or the pages, each with the
    outcome of its [extract_text()] (an exception, [None] or a string). *)
Record pdf_file := mk_pdf_file
  { file_exists : bool;
    suffix_lower : str;
    st_size : Z;
    opened : result (list (result (option str))) }.

Definition max_pages : nat := 50.

(** The loop of [extract_text] over the pages: a page whose text is a
    non-empty string is kept, any other outcome is skipped. *)
Fixpoint page_texts (pages : list (result (option str))) : list str :=
  match pages with
  | [] => []
  | Ok (Some (c :: t)) :: rest => (c :: t) :: page_texts rest
  | _ :: rest => page_texts rest
  end.

(** [extract_text]: the text, or [None].  The cleaning at the end returns
    for every text, so a [None] always is one of the function's own. *)
Definition extract_text (f : pdf_file) : option str :=
  if negb (file_exists f) then None
  else if negb (in_list (suffix_lower f) [lit ".pdf"]) then None
  else
    match opened f with
    | Raise _ => None
    | Ok pages =>
        match pages with
        | [] => None
        | _ :: _ =>
            let text_content := page_texts (firstn max_pages pages) in
            match text_content with
            | [] => None
            | _ :: _ => _clean_text (join [10; 10]%N text_content)
            end
        end
    end.

(** The messages of [validate_pdf]. *)
Inductive validation :=
| File_does_not_exist
| File_is_not_a_PDF
| File_too_large (file_size_mb : Q)
| PDF_has_no_pages
| PDF_appears_to_be_image_only
| PDF_is_valid
| Error_validating_PDF (e : exn).

(** [validate_pdf]: the verdict and its message. *)
Definition validate_pdf (f : pdf_file) : bool * validation :=
  if negb (file_exists f) then (false, File_does_not_exist)
  else if negb (in_list (suffix_lower f) [lit ".pdf"])
  then (false, File_is_not_a_PDF)
  else
    let file_size_mb := inject_Z (st_size f) / inject_Z (1024 * 1024) in
    if negb (Qle_bool file_size_mb 50)
    then (false, File_too_large file_size_mb)
    else
      match opened f with
      | Raise e => (false, Error_validating_PDF e)
      | Ok [] => (false, PDF_has_no_pages)
      | Ok (Raise e :: _) => (false, Error_validating_PDF e)
      | Ok (Ok first_page_text :: _) =>
          match first_page_text with
          | None | Some [] => (false, PDF_appears_to_be_image_only)
          | Some t =>
              if (length (strip t) <? 10)%nat
              then (false, PDF_appears_to_be_image_only)
              else (true, PDF_is_valid)
          end
      end.

End PDFProcessor.

(** ** video_assembler.py *)

Module VideoAssembler.

(** What the assembler reads of a moviepy clip: frame size, duration, the
    window of the source frame that is shown ([x1, x2) by [y1, y2), in
    source pixels), the number of back-to-back copies of the source and the
    offset into them at which the clip starts.  Sizes and durations are not
    negative. *)
Record clip := mk_clip
  { w : Z; h : Z; duration : Q;
    x1 : Z; y1 : Z; x2 : Z; y2 : Z;
    copies : Z; t_start : Q }.

(** [VideoFileClip(path)] for a file of the given size and duration. *)
Definition VideoFileClip (width height : Z) (native_duration : Q) : clip :=
  {| w := width; h := height; duration := native_duration;
     x1 := 0; y1 := 0; x2 := width; y2 := height;
     copies := 1; t_start := 0 |}.

Definition output_width : Z := 1080.
Definition output_height : Z := 1920.
Definition aspect_ratio : Q := 9 / 16.

(** [a < b] on floats. *)
Definition Qlt_bool (a b : Q) : bool := negb (Qle_bool b a).

(** Truthiness of a number given as a keyword argument. *)
Definition truthy (x : option Q) : option Q :=
  match x with
  | Some q => if Qeq_bool q 0 then None else Some q
  | None => None
  end.

(** Length of the numpy slice [a:b] of an axis of length [n], [0 <= a]. *)
Definition slice_len (n a b : Z) : Z :=
  Z.max 0 (Z.min b n - Z.min a n).

(** [v or default] for an optional number. *)
Definition or_default (v : option Q) (default : Q) : Q :=
  match truthy v with
  | Some q => q
  | None => default
  end.

(** moviepy's [clip.crop(x_center=, y_center=, width=, height=)], no corner
    given: a centre selects [centre -/+ size/2] on its axis, a bound still
    missing or zero falls back to the frame edge; the frame is then sliced
    at the truncated bounds. *)
Definition crop (c : clip) (x_center y_center : option Q) (width height : Z)
    : clip :=
  let '(cx1, cx2) :=
    match truthy x_center with
    | Some xc => (Some (xc - inject_Z width / 2),
                  Some (xc + inject_Z width / 2))
    | None => (None, None)
    end in
  let '(cy1, cy2) :=
    match truthy y_center with
    | Some yc => (Some (yc - inject_Z height / 2),
                  Some (yc + inject_Z height / 2))
    | None => (None, None)
    end in
  let cx1 := int_of_float (or_default cx1 0) in
  let cy1 := int_of_float (or_default cy1 0) in
  let cx2 := int_of_float (or_default cx2 (inject_Z (w c))) in
  let cy2 := int_of_float (or_default cy2 (inject_Z (h c))) in
  {| w := slice_len (w c) cx1 cx2; h := slice_len (h c) cy1 cy2;
     duration := duration c;
     x1 := cx1; y1 := cy1; x2 := cx2; y2 := cy2;
     copies := copies c; t_start := t_start c |}.

(** [clip.resize((width, height))]: the first frame is resized as the new
    clip is built, which fails on a frame without pixels. *)
Definition resize (c : clip) (width height : Z) : result clip :=
  if (w c =? 0)%Z || (h c =? 0)%Z then Raise ValueError
  else
    Ok {| w := width; h := height; duration := duration c;
          x1 := x1 c; y1 := y1 c; x2 := x2 c; y2 := y2 c;
          copies := copies c; t_start := t_start c |}.

(** [concatenate_videoclips([clip] * n)]. *)
Definition concatenate_copies (c : clip) (n : Z) : clip :=
  {| w := w c; h := h c; duration := inject_Z n * duration c;
     x1 := x1 c; y1 := y1 c; x2 := x2 c; y2 := y2 c;
     copies := n * copies c; t_start := t_start c |}.

(** [clip.subclip(t0, t1)]: the new duration is [t1 - t0]. *)
Definition subclip (c : clip) (t0 t1 : Q) : clip :=
  {| w := w c; h := h c; duration := t1 - t0;
     x1 := x1 c; y1 := y1 c; x2 := x2 c; y2 := y2 c;
     copies := copies c; t_start := t_start c + t0 |}.

(** [_prepare_background].  The frame sizes are integers far below 2^48,
    where the float operations of the crop are exact or are rounded without
    crossing 9/16 or an integer: they are written without rounding.  The
    quotient of the two durations is rounded as binary64 rounds it. *)
Definition _prepare_background (source : clip) (target : Q) : result clip :=
  let clip := source in
  let '(w0, h0) := (w clip, h clip) in
  if (h0 =? 0)%Z then Raise ZeroDivisionError else
  let original_aspect := inject_Z w0 / inject_Z h0 in
  let clip :=
    if Qlt_bool aspect_ratio original_aspect then
      let new_width := int_of_float (inject_Z h0 * aspect_ratio) in
      crop clip (Some (inject_Z w0 / 2)) None new_width h0
    else
      let new_height := int_of_float (inject_Z w0 / aspect_ratio) in
      crop clip None (Some (inject_Z h0 / 2)) w0 new_height in
  match resize clip output_width output_height with
  | Raise e => Raise e
  | Ok clip =>
      let looped :=
        if Qlt_bool (duration clip) target then
          if Qeq_bool (duration clip) 0 then Raise ZeroDivisionError
          else
            match PyFloat.int (PyFloat.round64 (target / duration clip)) with
            | Raise e => Raise e
            | Ok n => Ok (concatenate_copies clip (n + 1))
            end
        else Ok clip in
      match looped with
      | Ok clip => Ok (subclip clip 0 target)
      | Raise e => Raise e
      end
  end.

End VideoAssembler.

(** ** agents.py *)

Module Agents.













(** *** PDFAgent *)

(** The dictionary [extract_content] returns. *)
Record paper_content := mk_paper_content
  { title : str; abstract : str; full_text : str; length_ : nat }.

Section PDFAgent.

(** [str.lower], left to the library. *)
Variable lower : str -> str.

(** The loop looking for the abstract: at the first line whose lower-case
    form contains ["abstract"], the lines [i+1 .. i+9] joined by spaces. *)
Fixpoint find_abstract (lines all_lines : list str) (i : nat) : str :=
  match lines with
  | [] => []
  | line :: rest =>
      if contains (lit "abstract") (lower line)
      then join (lit " ") (slice (i + 1) (i + 10) all_lines)
      else find_abstract rest all_lines (S i)
  end.

(** [PDFAgent.extract_content], from the text of each page. *)
Definition extract_content (pages : list str) : paper_content :=
  let full_text := concat pages in
  let lines := split_on 10 full_text in
  let title :=
    match lines with
    | first :: _ => first
    | [] => lit "Research Paper"
    end in
  let abstract := find_abstract lines lines 0 in
  {| title := strip title;
     abstract := strip abstract;
     full_text := full_text;
     length_ := length (split full_text) |}.

End PDFAgent.

(** *** VideoAgent *)

Section VideoAgent.

(** [str(Path(directory) / name)], left to the library. *)
Variable joinpath : str -> str -> str.



End VideoAgent.

End Agents.

(** * Vocabulary of the properties *)

(** ** Words *)

Definition nonspace (c : N) : bool := negb (isspace c).

(** A word: a non-empty string without whitespace. *)
Definition wordb (w : str) : bool :=
  match w with
  | [] => false
  | _ :: _ => forallb nonspace w
  end.

(** ** Caption timing *)

(** Number of words of a caption text, as the timing loop counts them. *)
Definition word_count (caption_text : str) : nat :=
  length (split caption_text).

Definition seg_duration (caption_text : str) : Q :=
  inject_Z (Z.of_nat (word_count caption_text)) / words_per_second.

(** The captions the timing loop produces from time [t] on. *)
Fixpoint timed (t : Q) (texts : list str) : list caption :=
  match texts with
  | [] => []
  | c :: rest =>
      {| text := c; start := t; duration := seg_duration c;
         end_ := t + seg_duration c |}
      :: timed (t + seg_duration c) rest
  end.

(** Sum of a list of durations. *)
Definition Qsum (l : list Q) : Q := fold_right Qplus 0 l.

(** ** Whitespace at the ends of a text, suffixes *)

(** The first character is whitespace. *)
Definition leading_ws (s : str) : bool :=
  match s with
  | [] => false
  | c :: _ => isspace c
  end.

(** The last character is whitespace. *)
Definition trailing_ws (s : str) : bool := leading_ws (rev s).


(** ** Looping and cutting a clip *)

(** The first part of [_prepare_background]: the crop to the 9:16 ratio. *)
Definition crop_9_16 (source : VideoAssembler.clip) : VideoAssembler.clip :=
  let w0 := VideoAssembler.w source in
  let h0 := VideoAssembler.h source in
  if VideoAssembler.Qlt_bool VideoAssembler.aspect_ratio
       (inject_Z w0 / inject_Z h0)
  then
    VideoAssembler.crop source (Some (inject_Z w0 / 2)) None
      (int_of_float (inject_Z h0 * VideoAssembler.aspect_ratio)) h0
  else
    VideoAssembler.crop source None (Some (inject_Z h0 / 2)) w0
      (int_of_float (inject_Z w0 / VideoAssembler.aspect_ratio)).

(** The last part of [_prepare_background]: loop when too short, then cut
    at the target. *)
Definition loop_trim (c : VideoAssembler.clip) (target : Q)
    : result VideoAssembler.clip :=
  let looped :=
    if VideoAssembler.Qlt_bool (VideoAssembler.duration c) target then
      if Qeq_bool (VideoAssembler.duration c) 0 then Raise ZeroDivisionError
      else
        match PyFloat.int
                (PyFloat.round64 (target / VideoAssembler.duration c)) with
        | Raise e => Raise e
        | Ok n => Ok (VideoAssembler.concatenate_copies c (n + 1))
        end
    else Ok c in
  match looped with
  | Ok c' => Ok (VideoAssembler.subclip c' 0 target)
  | Raise e => Raise e
  end.

(** ** Lines *)

(** The text before the first newline. *)
Fixpoint first_line (s : str) : str :=
  match s with
  | [] => []
  | c :: t => if (c =? 10)%N then [] else c :: first_line t
  end.

(** ** Scenario inputs *)

(** The nine-word script of the specification's scenario. *)
Definition fox_script : str :=
  lit "the quick brown fox jumps over the lazy dog".

(** A script of 200 one-letter words. *)
Definition script_200_words : str := join (lit " ") (repeat (lit "w") 200).

(** A script of 76 one-letter words: 30.4 seconds at 150 words a minute. *)
Definition script_76_words : str := join (lit " ") (repeat (lit "w") 76).

(** An endpoint that fails on its first call and answers afterwards. *)
Definition flaky_service : service :=
  fun n =>
    match n with
    | O => Raise APIError
    | S _ => Ok (lit "{}")
    end.

(** An endpoint that always fails. *)
Definition failing_service : service := fun _ => Raise APIError.

Definition fresh_world : world := {| api_calls := 0; sleeps := [] |}.

(** * Properties *)

(** ** The model on concrete inputs *)

(** Binary64 rounding: the float 0.1, the quotient 1.0 / 0.1, the product
    9 / 150 * 60 (3.5999999999999996), half the smallest subnormal number
    (rounded to zero) and an overflow. *)
Example fl_samples :
  PyFloat.fl (1 # 10) == 3602879701896397 # 36028797018963968
  /\ PyFloat.fl (1 / PyFloat.fl (1 # 10)) == 10
  /\ PyFloat.fl (PyFloat.fl (9 / 150) * 60)
     == 8106479329266892 # 2251799813685248
  /\ PyFloat.fl (2 ^ (-1075)) == 0
  /\ PyFloat.round64 (inject_Z (2 ^ 1024)) = PyFloat.Inf false.
Proof.
  split; [vm_compute; reflexivity|]. split; [vm_compute; reflexivity|].
  split; [vm_compute; reflexivity|]. split; vm_compute; reflexivity.
Qed.

(** The word budget of a summary: 450 words for the default 180 seconds;
    54 for 22 seconds, where 22 / 60 * 150 falls just short of 55. *)
Example summary_target_words_samples :
  summary_target_words 180 = Ok 450%Z /\ summary_target_words 22 = Ok 54%Z.
Proof. split; vm_compute; reflexivity. Qed.

Example split_runs_of_whitespace :
  split (lit "  the quick   brown ") = [lit "the"; lit "quick"; lit "brown"].
Proof. reflexivity. Qed.

Example isspace_samples :
  (isspace 32, isspace 10, isspace 160, isspace 8203)
  = (true, true, true, false).
Proof. reflexivity. Qed.

Example replace_is_one_pass :
  replace (lit "  ") (lit " ") (lit "a    b   c") = lit "a  b  c".
Proof. reflexivity. Qed.

Example clean_text_sample :
  PDFProcessor._clean_text
    (lit "  a    b" ++ [10; 10; 10; 10; 10]%N ++ lit "c  ")
  = Some (lit "a b" ++ [10; 10]%N ++ lit "c").
Proof. vm_compute. reflexivity. Qed.

Example prepare_background_landscape :
  VideoAssembler._prepare_background
    (VideoAssembler.VideoFileClip 1920 1080 10) 25
  = Ok (VideoAssembler.mk_clip 1080 1920 25 656 0 1263 1080 3 0).
Proof. vm_compute. reflexivity. Qed.

(** A clip of a tenth of a second, the float 0.1, looped to one second:
    the quotient 1.0 / 0.1 is rounded up to 10.0, which gives 11 copies. *)
Example prepare_background_rounded_quotient :
  VideoAssembler._prepare_background
    (VideoAssembler.VideoFileClip 1080 1920
       (3602879701896397 # 36028797018963968)) 1
  = Ok (VideoAssembler.mk_clip 1080 1920 1 0 0 1080 1920 11 0).
Proof. vm_compute. reflexivity. Qed.

(** A quotient of durations beyond the largest float is infinite, and
    [int] refuses it. *)
Example prepare_background_overflow :
  VideoAssembler._prepare_background
    (VideoAssembler.VideoFileClip 1080 1920
       (1 # 1267650600228229401496703205376)) (inject_Z (2 ^ 1000))
  = Raise OverflowError.
Proof. vm_compute. reflexivity. Qed.

Example prepare_background_no_height :
  VideoAssembler._prepare_background
    (VideoAssembler.VideoFileClip 720 0 10) 25
  = Raise ZeroDivisionError.
Proof. reflexivity. Qed.

Example fallback_path_sample :
  replace (lit ".mp4") (lit "_detailed_script.txt")
    (lit "out/brainrot_video.mp4")
  = lit "out/brainrot_video_detailed_script.txt".
Proof. vm_compute. reflexivity. Qed.


(** ** Rounding to binary64 *)

Section Rounding.

Import PyFloat.

(** Rounding to an integer does not cross an integer, and moves by a half
    at most. *)
Lemma round_half_even_ge (k : Z) (s : Q) :
  inject_Z k <= s -> (k <= round_half_even s)%Z.
Proof.
  intros H. apply Qfloor_resp_le in H. rewrite Qfloor_Z in H.
  unfold round_half_even.
  destruct (Qcompare _ _); [destruct (Z.even _)| |]; lia.
Qed.

Lemma round_half_even_le (k : Z) (s : Q) :
  s <= inject_Z k -> (round_half_even s <= k)%Z.
Proof.
  intros H. pose proof (Qfloor_resp_le _ _ H) as F. rewrite Qfloor_Z in F.
  assert (G : 0 < s - inject_Z (Qfloor s) -> (Qfloor s + 1 <= k)%Z).
  { intros P. assert (L : inject_Z (Qfloor s) < inject_Z k) by lra.
    rewrite <- Zlt_Qlt in L. lia. }
  unfold round_half_even.
  destruct (Qcompare _ _) eqn:C.
  - apply Qeq_alt in C. destruct (Z.even _); [lia|]. apply G. lra.
  - lia.
  - apply Qgt_alt in C. apply G. lra.
Qed.

(** Powers of two. *)
Lemma pow2_pos (e : Z) : 0 < 2 ^ e.
Proof. now apply Qpower_0_lt. Qed.

Lemma pow2_nonneg_exp (e : Z) : (0 <= e)%Z -> 2 ^ e == inject_Z (2 ^ e).
Proof. intros H. now rewrite Zpower_Qpower. Qed.

(** [ilog2 q] is the exponent of the binade of [q]. *)
Lemma ilog2_lower (q : Q) : 0 < q -> 2 ^ ilog2 q <= q.
Proof.
  intros Hq. unfold ilog2.
  destruct (Qle_bool _ q) eqn:E; [now apply Qle_bool_iff|]. clear E.
  destruct q as [n d]. cbn [Qnum Qden].
  assert (Hn : (0 < n)%Z) by (unfold Qlt in Hq; cbn in Hq; lia).
  pose proof (Z.log2_spec n Hn) as [A _].
  pose proof (Z.log2_spec (Z.pos d) ltac:(lia)) as [_ B].
  pose proof (Z.log2_nonneg n) as An.
  pose proof (Z.log2_nonneg (Z.pos d)) as Bn.
  replace (Z.log2 n - Z.log2 (Z.pos d) - 1)%Z
    with (Z.log2 n - Z.succ (Z.log2 (Z.pos d)))%Z by lia.
  rewrite Qpower_minus by discriminate.
  rewrite !pow2_nonneg_exp by lia.
  revert A B. generalize (2 ^ Z.log2 n)%Z (2 ^ Z.succ (Z.log2 (Z.pos d)))%Z.
  intros a b A B.
  apply Qle_shift_div_r; [unfold Qlt; cbn; lia|].
  unfold Qle, Qmult, inject_Z. cbn [Qnum Qden].
  rewrite !Z.mul_1_r, Pos.mul_1_r. nia.
Qed.

Lemma ilog2_upper (q : Q) : 0 < q -> q < 2 ^ (ilog2 q + 1).
Proof.
  intros Hq. unfold ilog2.
  destruct (Qle_bool _ q) eqn:E.
  - clear E. destruct q as [n d]. cbn [Qnum Qden].
    assert (Hn : (0 < n)%Z) by (unfold Qlt in Hq; cbn in Hq; lia).
    pose proof (Z.log2_spec n Hn) as [_ A].
    pose proof (Z.log2_spec (Z.pos d) ltac:(lia)) as [B _].
    pose proof (Z.log2_nonneg n) as An.
    pose proof (Z.log2_nonneg (Z.pos d)) as Bn.
    replace (Z.log2 n - Z.log2 (Z.pos d) + 1)%Z
      with (Z.succ (Z.log2 n) - Z.log2 (Z.pos d))%Z by lia.
    rewrite Qpower_minus by discriminate.
    rewrite !pow2_nonneg_exp by lia.
    assert (Pb : (0 < 2 ^ Z.log2 (Z.pos d))%Z)
      by (apply Z.pow_pos_nonneg; lia).
    revert A B Pb.
    generalize (2 ^ Z.succ (Z.log2 n))%Z (2 ^ Z.log2 (Z.pos d))%Z.
    intros a b A B Pb.
    apply Qlt_shift_div_l; [unfold Qlt; cbn; lia|].
    unfold Qlt, Qmult, inject_Z. cbn [Qnum Qden].
    rewrite !Z.mul_1_r, Pos.mul_1_r. nia.
  - replace (Z.log2 (Qnum q) - Z.log2 (Z.pos (Qden q)) - 1 + 1)%Z
      with (Z.log2 (Qnum q) - Z.log2 (Z.pos (Qden q)))%Z by lia.
    apply Qnot_le_lt. intros C. apply Qle_bool_iff in C. congruence.
Qed.

Lemma round_half_even_error (s : Q) :
  s - (1 # 2) <= inject_Z (round_half_even s)
  /\ inject_Z (round_half_even s) <= s + (1 # 2).
Proof.
  pose proof (Qfloor_le s) as F1. pose proof (Qlt_floor s) as F2.
  rewrite inject_Z_plus in F2. change (inject_Z 1) with 1 in F2.
  unfold round_half_even.
  destruct (Qcompare _ _) eqn:C.
  - apply Qeq_alt in C.
    destruct (Z.even _); [|rewrite inject_Z_plus; change (inject_Z 1) with 1];
      split; lra.
  - apply Qlt_alt in C. split; lra.
  - apply Qgt_alt in C. rewrite inject_Z_plus. change (inject_Z 1) with 1.
    split; lra.
Qed.

(** The relative error of one rounding of a normal number. *)
Lemma round_pos_rel (q : Q) :
  2 ^ (-1022) <= q ->
  (1 - unit_roundoff) * q <= round_pos q
  /\ round_pos q <= (1 + unit_roundoff) * q.
Proof.
  intros H.
  assert (Hq : 0 < q).
  { apply Qlt_le_trans with (2 := H). apply pow2_pos. }
  pose proof (ilog2_lower q Hq) as L. pose proof (ilog2_upper q Hq) as U.
  assert (Hl : (-1022 <= ilog2 q)%Z).
  { assert (P : 2 ^ (-1022) < 2 ^ (ilog2 q + 1)) by lra.
    apply Qpower_lt_compat_l_inv in P; [lia|reflexivity]. }
  unfold round_pos. rewrite Z.max_l by lia.
  set (e := (ilog2 q - 52)%Z).
  pose proof (pow2_pos e) as Pe.
  destruct (round_half_even_error (q / 2 ^ e)) as [E1 E2].
  revert E1 E2. generalize (round_half_even (q / 2 ^ e)). intros R E1 E2.
  apply (Qmult_le_compat_r _ _ (2 ^ e)) in E1; [|lra].
  apply (Qmult_le_compat_r _ _ (2 ^ e)) in E2; [|lra].
  assert (X : q / 2 ^ e * 2 ^ e == q) by (field; lra).
  assert (Y : 2 ^ ilog2 q == 2 ^ e * (4503599627370496 # 1)).
  { replace (ilog2 q) with (e + 52)%Z by (unfold e; lia).
    rewrite Qpower_plus by discriminate. reflexivity. }
  unfold unit_roundoff. split; nra.
Qed.

Lemma pow2_split (a b : Z) : 2 ^ (a + b) == 2 ^ a * 2 ^ b.
Proof. apply Qpower_plus. discriminate. Qed.

Lemma pow2_le (a b : Z) : (a <= b)%Z -> 2 ^ a <= 2 ^ b.
Proof. intros H. apply Qpower_le_compat_l; [exact H|discriminate]. Qed.

(** A float below [q] is below the rounding of [q], and likewise above:
    rounding does not cross a float. *)
Lemma round_pos_ge_float (z k : Z) (q : Q) :
  (0 < z <= 2 ^ 53)%Z -> (-1074 <= k)%Z ->
  inject_Z z * 2 ^ k <= q -> inject_Z z * 2 ^ k <= round_pos q.
Proof.
  intros Hz Hk H. unfold round_pos.
  pose proof (pow2_pos k) as Pk.
  assert (Pz : 0 < inject_Z z)
    by (change 0 with (inject_Z 0); rewrite <- Zlt_Qlt; lia).
  assert (Hq : 0 < q) by nra.
  set (e := Z.max (ilog2 q - 52) (-1074)).
  pose proof (pow2_pos e) as Pe.
  destruct (Z.le_gt_cases e k) as [C|C].
  - assert (D : 2 ^ k == inject_Z (2 ^ (k - e)) * 2 ^ e).
    { rewrite <- pow2_nonneg_exp by lia. rewrite <- pow2_split.
      now replace (k - e + e)%Z with k by lia. }
    assert (K : inject_Z (z * 2 ^ (k - e)) <= q / 2 ^ e).
    { apply Qle_shift_div_l; [exact Pe|]. rewrite inject_Z_mult.
      rewrite D in H. lra. }
    apply round_half_even_ge in K. rewrite Zle_Qle, inject_Z_mult in K.
    revert K. generalize (round_half_even (q / 2 ^ e)). intros R K.
    rewrite D. nra.
  - assert (E : e = (ilog2 q - 52)%Z) by lia.
    assert (K : inject_Z (2 ^ 52) <= q / 2 ^ e).
    { apply Qle_shift_div_l; [exact Pe|].
      rewrite <- pow2_nonneg_exp by lia. rewrite <- pow2_split.
      replace (52 + e)%Z with (ilog2 q) by lia. now apply ilog2_lower. }
    apply round_half_even_ge in K. rewrite Zle_Qle in K.
    revert K. generalize (round_half_even (q / 2 ^ e)). intros R K.
    assert (P : 2 ^ (k + 1) <= 2 ^ e) by (apply pow2_le; lia).
    rewrite pow2_split in P. change (2 ^ 1) with (2 # 1) in P.
    assert (B : inject_Z z <= inject_Z (2 ^ 53)) by (rewrite <- Zle_Qle; lia).
    change (inject_Z (2 ^ 53)) with (9007199254740992 # 1) in B.
    change (inject_Z (2 ^ 52)) with (4503599627370496 # 1) in K.
    nra.
Qed.

Lemma round_pos_le_float (z k : Z) (q : Q) :
  (0 < z <= 2 ^ 53)%Z -> (-1074 <= k)%Z -> 0 < q ->
  q <= inject_Z z * 2 ^ k -> round_pos q <= inject_Z z * 2 ^ k.
Proof.
  intros Hz Hk Hq H. unfold round_pos.
  pose proof (pow2_pos k) as Pk.
  pose proof (ilog2_lower q Hq) as L.
  set (e := Z.max (ilog2 q - 52) (-1074)).
  pose proof (pow2_pos e) as Pe.
  assert (B : inject_Z z <= inject_Z (2 ^ 53)) by (rewrite <- Zle_Qle; lia).
  change (inject_Z (2 ^ 53)) with (9007199254740992 # 1) in B.
  destruct (Z.le_gt_cases e k) as [C|C].
  - assert (D : 2 ^ k == inject_Z (2 ^ (k - e)) * 2 ^ e).
    { rewrite <- pow2_nonneg_exp by lia. rewrite <- pow2_split.
      now replace (k - e + e)%Z with k by lia. }
    assert (K : q / 2 ^ e <= inject_Z (z * 2 ^ (k - e))).
    { apply Qle_shift_div_r; [exact Pe|]. rewrite inject_Z_mult.
      rewrite D in H. lra. }
    apply round_half_even_le in K. rewrite Zle_Qle, inject_Z_mult in K.
    revert K. generalize (round_half_even (q / 2 ^ e)). intros R K.
    rewrite D. nra.
  - assert (E : e = (ilog2 q - 52)%Z) by lia.
    assert (P : 2 ^ (k + 1) <= 2 ^ e) by (apply pow2_le; lia).
    rewrite pow2_split in P. change (2 ^ 1) with (2 # 1) in P.
    assert (Y : 2 ^ ilog2 q == 2 ^ e * (4503599627370496 # 1)).
    { replace (ilog2 q) with (e + 52)%Z by lia.
      rewrite pow2_split. reflexivity. }
    assert (K : q / 2 ^ e <= inject_Z (2 ^ 52)).
    { apply Qle_shift_div_r; [exact Pe|].
      change (inject_Z (2 ^ 52)) with (4503599627370496 # 1). nra. }
    apply round_half_even_le in K. rewrite Zle_Qle in K.
    change (inject_Z (2 ^ 52)) with (4503599627370496 # 1) in K.
    revert K. generalize (round_half_even (q / 2 ^ e)). intros R K.
    nra.
Qed.

(** The rounding of a normal number is a float: rounding it again, however
    it is written, changes nothing. *)
Lemma round_pos_fixed (x q : Q) :
  2 ^ (-1022) <= x -> q == round_pos x -> round_pos q == round_pos x.
Proof.
  intros H E.
  assert (Hx : 0 < x).
  { apply Qlt_le_trans with (2 := H). apply pow2_pos. }
  pose proof (ilog2_lower x Hx) as L. pose proof (ilog2_upper x Hx) as U.
  assert (Hl : (-1022 <= ilog2 x)%Z).
  { assert (P : 2 ^ (-1022) < 2 ^ (ilog2 x + 1)) by lra.
    apply Qpower_lt_compat_l_inv in P; [lia|reflexivity]. }
  revert E. unfold round_pos at 1 3. rewrite Z.max_l by lia.
  set (e := (ilog2 x - 52)%Z).
  pose proof (pow2_pos e) as Pe.
  assert (Y : 2 ^ ilog2 x == 2 ^ e * (4503599627370496 # 1)).
  { replace (ilog2 x) with (e + 52)%Z by (unfold e; lia).
    rewrite pow2_split. reflexivity. }
  assert (Y' : 2 ^ (ilog2 x + 1) == 2 ^ e * (9007199254740992 # 1)).
  { replace (ilog2 x + 1)%Z with (e + 53)%Z by (unfold e; lia).
    rewrite pow2_split. reflexivity. }
  assert (K1 : inject_Z (2 ^ 52) <= x / 2 ^ e).
  { apply Qle_shift_div_l; [exact Pe|].
    change (inject_Z (2 ^ 52)) with (4503599627370496 # 1). nra. }
  assert (K2 : x / 2 ^ e <= inject_Z (2 ^ 53)).
  { apply Qle_shift_div_r; [exact Pe|].
    change (inject_Z (2 ^ 53)) with (9007199254740992 # 1). nra. }
  apply round_half_even_ge in K1. apply round_half_even_le in K2.
  revert K1 K2. generalize (round_half_even (x / 2 ^ e)). intros R K1 K2 E.
  assert (Pr : 0 < inject_Z R)
    by (change 0 with (inject_Z 0); rewrite <- Zlt_Qlt; lia).
  apply Qle_antisym.
  - apply round_pos_le_float; [lia|unfold e; lia|nra|rewrite E; apply Qle_refl].
  - apply round_pos_ge_float; [lia|unfold e; lia|rewrite E; apply Qle_refl].
Qed.

(** In particular rounding does not cross an integer below 2^53. *)
Lemma round_pos_ge (z : Z) (q : Q) :
  (0 < z <= 2 ^ 53)%Z -> inject_Z z <= q -> inject_Z z <= round_pos q.
Proof.
  intros Hz H.
  pose proof (round_pos_ge_float z 0 q Hz ltac:(lia)) as G.
  change (2 ^ 0) with 1 in G. rewrite Qmult_1_r in G. now apply G.
Qed.

Lemma round_pos_le (z : Z) (q : Q) :
  0 < q -> q <= inject_Z z -> (z <= 2 ^ 53)%Z -> round_pos q <= inject_Z z.
Proof.
  intros Hq H Hz.
  assert (Pz : (0 < z)%Z).
  { rewrite Zlt_Qlt. change (inject_Z 0) with 0. lra. }
  pose proof (round_pos_le_float z 0 q ltac:(lia) ltac:(lia) Hq) as G.
  change (2 ^ 0) with 1 in G. rewrite Qmult_1_r in G. now apply G.
Qed.

(** The rounding of an exact result, by its sign. *)
Lemma fl_pos (q : Q) : 0 < q -> fl q = round_pos q.
Proof.
  intros H. unfold fl. destruct q as [[|n|n] d]; try reflexivity;
    unfold Qlt in H; cbn in H; lia.
Qed.

Lemma fl_zero (q : Q) : q == 0 -> fl q = 0.
Proof.
  intros H. unfold fl. destruct q as [[|n|n] d]; try reflexivity;
    unfold Qeq in H; cbn in H; lia.
Qed.

(** One rounding of a normal number: a relative error of 2^-53 at most. *)
Lemma fl_rel (q : Q) :
  2 ^ (-1022) <= q ->
  (1 - unit_roundoff) * q <= fl q /\ fl q <= (1 + unit_roundoff) * q.
Proof.
  intros H. rewrite fl_pos; [now apply round_pos_rel|].
  apply Qlt_le_trans with (2 := H). apply pow2_pos.
Qed.

(** A float, divided by 1.0 or written in another way, is not changed by
    one more rounding. *)
Lemma fl_fixed (x q : Q) : 2 ^ (-1022) <= x -> q == fl x -> fl q == fl x.
Proof.
  intros H E.
  assert (Hx : 0 < x).
  { apply Qlt_le_trans with (2 := H). apply pow2_pos. }
  rewrite (fl_pos x Hx) in *.
  assert (Hq : 0 < q).
  { rewrite E. destruct (round_pos_rel x H) as [L _].
    unfold unit_roundoff in L. nra. }
  rewrite (fl_pos q Hq). now apply round_pos_fixed.
Qed.

(** The integer part of a rounded quotient that is at least 1 and needs
    fewer than 53 bits: the floor of the exact quotient, or one more when
    the quotient was rounded up to the next integer. *)
Lemma round64_quotient (q : Q) :
  1 <= q -> q < inject_Z (2 ^ 52) ->
  exists n,
    int (round64 q) = Ok n
    /\ (Qfloor q <= n <= Qfloor q + 1)%Z.
Proof.
  intros H1 H2.
  assert (Hq : 0 < q) by lra.
  pose proof (Qfloor_le q) as F1. pose proof (Qlt_floor q) as F2.
  assert (Z1 : (1 <= Qfloor q)%Z).
  { apply Qfloor_resp_le in H1. exact H1. }
  assert (Z2 : (Qfloor q < 2 ^ 52)%Z).
  { rewrite Zlt_Qlt. lra. }
  assert (L : inject_Z (Qfloor q) <= round_pos q).
  { apply round_pos_ge; [|exact F1]. lia. }
  assert (U : round_pos q <= inject_Z (Qfloor q + 1)).
  { apply round_pos_le; [exact Hq|lra|lia]. }
  pose proof (fl_pos q Hq) as E.
  assert (B : inject_Z (Qfloor q + 1) <= inject_Z (2 ^ 52))
    by (rewrite <- Zle_Qle; lia).
  assert (P : 0 <= round_pos q).
  { apply Qle_trans with (2 := L). change 0 with (inject_Z 0).
    rewrite <- Zle_Qle. lia. }
  unfold round64. rewrite E.
  assert (M : Qle_bool (Qabs (round_pos q)) max_float = true).
  { apply Qle_bool_iff. rewrite (Qabs_pos _ P).
    apply Qle_trans with (1 := U). apply Qle_trans with (1 := B).
    vm_compute. discriminate. }
  rewrite M. cbn [int]. eexists. split; [reflexivity|].
  assert (I : int_of_float (round_pos q) = Qfloor (round_pos q)).
  { destruct (round_pos q) as [n d]. unfold Qle in P.
    unfold int_of_float, Qfloor. cbn [Qnum Qden] in *.
    apply Z.quot_div_nonneg; lia. }
  rewrite I.
  apply Qfloor_resp_le in L, U. rewrite Qfloor_Z in L, U. lia.
Qed.

(** A rounded quotient never makes [int] fail otherwise than by overflow. *)
Lemma int_round64 (q : Q) :
  (exists n, int (round64 q) = Ok n)
  \/ int (round64 q) = Raise OverflowError.
Proof.
  unfold round64. destruct (Qle_bool _ _); cbn [int];
    [left; eexists; reflexivity|right; reflexivity].
Qed.

End Rounding.

(** ** Words and whitespace *)

Section SplitJoin.

Lemma split_nonspace_cons (d : N) (t : str) :
  isspace d = false -> exists w ws, split (d :: t) = w :: ws.
Proof.
  intros Hd. cbn [split]. rewrite Hd.
  destruct t as [|e t']; [now eexists; eexists|].
  destruct (isspace e); [now eexists; eexists|].
  destruct (split (e :: t')); now eexists; eexists.
Qed.

Lemma split_app_sep (a b : str) (c : N) :
  isspace c = true -> split (a ++ c :: b) = split a ++ split b.
Proof.
  intros Hc. induction a as [|x a IH].
  - simpl. now rewrite Hc.
  - change ((x :: a) ++ c :: b) with (x :: (a ++ c :: b)).
    cbn [split]. destruct (isspace x) eqn:Hx; [exact IH|].
    destruct a as [|d a'].
    + cbn [app]. rewrite Hc. cbn [app] in IH. now rewrite IH.
    + change ((d :: a') ++ c :: b) with (d :: (a' ++ c :: b)) in *.
      destruct (isspace d) eqn:Hd; rewrite ?Hd, IH.
      * reflexivity.
      * destruct (split_nonspace_cons d a' Hd) as (u & us & Hu).
        now rewrite Hu.
Qed.

Lemma split_word (w : str) : wordb w = true -> split w = [w].
Proof.
  induction w as [|x w IH]; [discriminate|].
  cbn [wordb forallb]. intros H. apply andb_prop in H as [Hx Hw].
  unfold nonspace in Hx. apply negb_true_iff in Hx.
  cbn [split]. rewrite Hx. destruct w as [|d w']; [reflexivity|].
  assert (Hd : isspace d = false).
  { cbn [forallb] in Hw. apply andb_prop in Hw as [Hd _].
    now apply negb_true_iff in Hd. }
  rewrite Hd, IH; [reflexivity|exact Hw].
Qed.

Lemma split_all_words (s : str) : Forall (fun w => wordb w = true) (split s).
Proof.
  induction s as [|x s IH]; [constructor|].
  cbn [split]. destruct (isspace x) eqn:Hx; [exact IH|].
  assert (Hn : nonspace x = true) by (unfold nonspace; now rewrite Hx).
  destruct s as [|d s'].
  - constructor; [|constructor]. cbn. now rewrite Hn.
  - destruct (isspace d) eqn:Hd.
    + constructor; [|exact IH]. cbn. now rewrite Hn.
    + destruct (split (d :: s')) as [|u us].
      * constructor; [|constructor]. cbn. now rewrite Hn.
      * inversion IH as [|? ? Hu Hus]; subst. constructor; [|exact Hus].
        cbn [wordb forallb]. rewrite Hn. cbn [andb].
        destruct u; [discriminate|exact Hu].
Qed.

Lemma split_join (texts : list str) :
  split (join (lit " ") texts) = concat (map split texts).
Proof.
  induction texts as [|p rest IH]; [reflexivity|].
  destruct rest as [|q rest'].
  - cbn [join map concat]. now rewrite app_nil_r.
  - change (join (lit " ") (p :: q :: rest'))
      with (p ++ 32%N :: join (lit " ") (q :: rest')).
    rewrite split_app_sep by reflexivity. now rewrite IH.
Qed.

Lemma concat_map_split_words (ws : list str) :
  Forall (fun w => wordb w = true) ws -> concat (map split ws) = ws.
Proof.
  induction 1 as [|w ws Hw _ IH]; [reflexivity|].
  cbn [map concat]. now rewrite (split_word w Hw), IH.
Qed.

Lemma split_join_words (ws : list str) :
  Forall (fun w => wordb w = true) ws -> split (join (lit " ") ws) = ws.
Proof.
  intros H. rewrite split_join. now apply concat_map_split_words.
Qed.

End SplitJoin.

(** ** Caption grouping and timing *)

Section Captions.

Lemma timing_fold (texts : list str) :
  forall acc t,
    fst (fold_left timing_step texts (acc, t)) = acc ++ timed t texts.
Proof.
  induction texts as [|c rest IH]; intros acc t.
  - cbn. now rewrite app_nil_r.
  - cbn [fold_left timing_step]. rewrite IH. cbn [timed].
    now rewrite <- app_assoc.
Qed.

Lemma generate_captions_timed (script : str) (k : Z) :
  generate_captions script k = timed 0 (caption_texts script k).
Proof. unfold generate_captions. now rewrite timing_fold. Qed.

Lemma timed_text (texts : list str) :
  forall t, map text (timed t texts) = texts.
Proof.
  induction texts as [|c rest IH]; intros t; [reflexivity|].
  cbn [timed map text]. now rewrite IH.
Qed.



Lemma seg_duration_sum (texts : list str) :
  Qsum (map seg_duration texts)
  == inject_Z (Z.of_nat (length (concat (map split texts)))) / words_per_second.
Proof.
  induction texts as [|x rest IH]; [reflexivity|].
  cbn [map Qsum fold_right concat]. fold (Qsum (map seg_duration rest)).
  rewrite IH, length_app, Nat2Z.inj_add, inject_Z_plus.
  unfold seg_duration, word_count. field. discriminate.
Qed.

(** The grouping loop for a positive segment size. *)
Lemma group_fold_pos (k : Z) (words : list str) :
  (0 < k)%Z ->
  Forall (fun w => wordb w = true) words ->
  forall caps cur,
    Forall (fun w => wordb w = true) cur ->
    (Z.of_nat (length cur) < k)%Z ->
    exists new cur',
      fold_left (group_step k) words (caps, cur) = (caps ++ new, cur')
      /\ concat (map split new) ++ cur' = cur ++ words
      /\ Forall (fun c => Z.of_nat (word_count c) = k) new
      /\ (Z.of_nat (length cur') < k)%Z
      /\ Forall (fun w => wordb w = true) cur'.
Proof.
  intros Hk Hwords. induction Hwords as [|w words Hw Hws IH]; intros caps cur Hcur Hlen.
  - exists [], cur. cbn. rewrite !app_nil_r. auto.
  - cbn [fold_left group_step].
    assert (Hcur' : Forall (fun w => wordb w = true) (cur ++ [w])).
    { apply Forall_app. split; [exact Hcur|]. now constructor. }
    assert (Hl : length (cur ++ [w]) = S (length cur)).
    { rewrite length_app. cbn. lia. }
    destruct (Z.of_nat (length (cur ++ [w])) >=? k)%Z eqn:Hge.
    + apply Z.geb_le in Hge.
      destruct (IH (caps ++ [join (lit " ") (cur ++ [w])]) [])
        as (new & cur' & Hf & Hc & Hn & Hl' & Hw');
        [constructor|cbn; lia|].
      exists (join (lit " ") (cur ++ [w]) :: new), cur'.
      rewrite Hf, <- app_assoc. split; [reflexivity|].
      split; [|split; [|split; [exact Hl'|exact Hw']]].
      * cbn [map concat]. rewrite split_join_words by exact Hcur'.
        rewrite <- !app_assoc. cbn [app] in Hc |- *. now rewrite Hc.
      * constructor; [|exact Hn]. unfold word_count.
        rewrite split_join_words by exact Hcur'. lia.
    + rewrite Z.geb_leb in Hge. apply Z.leb_gt in Hge.
      destruct (IH caps (cur ++ [w]) Hcur' Hge)
        as (new & cur' & Hf & Hc & Hn & Hl' & Hw').
      exists new, cur'. rewrite Hf. split; [reflexivity|].
      split; [|split; [exact Hn|split; [exact Hl'|exact Hw']]].
      rewrite Hc, <- app_assoc. reflexivity.
Qed.

(** The caption strings for a positive segment size: full segments of
    exactly [k] words and at most one shorter, non-empty last segment. *)
Lemma caption_texts_pos (script : str) (k : Z) :
  (0 < k)%Z ->
  exists full rest,
    caption_texts script k = full ++ rest
    /\ Forall (fun c => Z.of_nat (word_count c) = k) full
    /\ (rest = [] \/
        exists l, rest = [l] /\ (1 <= word_count l)%nat
                  /\ (Z.of_nat (word_count l) < k)%Z)
    /\ concat (map split (full ++ rest)) = split script.
Proof.
  intros Hk. unfold caption_texts.
  destruct (group_fold_pos k (split script) Hk (split_all_words script) [] [])
    as (new & cur' & Hf & Hc & Hn & Hl & Hw); [constructor|cbn; lia|].
  rewrite Hf. cbn [app] in Hc |- *. destruct cur' as [|u us].
  - exists new, []. rewrite app_nil_r in *. auto.
  - exists new, [join (lit " ") (u :: us)].
    assert (Hs : split (join (lit " ") (u :: us)) = u :: us)
      by now apply split_join_words.
    split; [reflexivity|]. split; [exact Hn|]. split.
    + right. eexists. split; [reflexivity|]. unfold word_count.
      rewrite Hs. cbn [length] in *. split; lia.
    + rewrite map_app, concat_app. cbn [map concat].
      now rewrite Hs, app_nil_r.
Qed.

(** The grouping loop when the segment size is zero or negative: every
    word is flushed as a segment of its own. *)
Lemma group_fold_nonpos (k : Z) (words : list str) :
  (k <= 0)%Z ->
  forall caps,
    fold_left (group_step k) words (caps, []) = (caps ++ words, []).
Proof.
  intros Hk. induction words as [|w words IH]; intros caps.
  - cbn. now rewrite app_nil_r.
  - cbn [fold_left group_step app length].
    destruct (Z.of_nat 1 >=? k)%Z eqn:Hge.
    + rewrite IH, <- app_assoc. reflexivity.
    + rewrite Z.geb_leb in Hge. apply Z.leb_gt in Hge. lia.
Qed.

Lemma caption_texts_nonpos (script : str) (k : Z) :
  (k <= 0)%Z -> caption_texts script k = split script.
Proof.
  intros Hk. unfold caption_texts.
  now rewrite (group_fold_nonpos k (split script) Hk []).
Qed.

Lemma nth_error_timed_text (texts : list str) (t : Q) (i : nat) (c : caption) :
  nth_error (timed t texts) i = Some c -> nth_error texts i = Some (text c).
Proof.
  intros H. rewrite <- (timed_text texts t), nth_error_map, H. reflexivity.
Qed.

End Captions.


(** C2: for every script and every positive segment size, the words of the
    caption texts, read in order, are exactly the whitespace-separated words
    of the script; every segment has at least one and at most [k] words, and
    every segment but the last has exactly [k]; the empty script yields the
    empty sequence. *)
Theorem generate_captions_partition (script : str) (k : Z) :
  (0 < k)%Z ->
  let caps := generate_captions script k in
  concat (map (fun c => split (text c)) caps) = split script
  /\ split (join (lit " ") (map text caps)) = split script
  /\ (forall i c, nth_error caps i = Some c ->
        (1 <= word_count (text c))%nat
        /\ (Z.of_nat (word_count (text c)) <= k)%Z
        /\ ((S i < length caps)%nat -> Z.of_nat (word_count (text c)) = k))
  /\ generate_captions [] k = [].
Proof.
  intros Hk. cbn zeta. rewrite !generate_captions_timed.
  destruct (caption_texts_pos script k Hk) as (full & rest & Ht & Hfull & Hrest & Hcat).
  rewrite Ht. split; [|split; [|split]].
  - rewrite <- (map_map text split), timed_text. exact Hcat.
  - rewrite timed_text, split_join. exact Hcat.
  - intros i c Hc. apply nth_error_timed_text in Hc.
    assert (Hlen : length (timed 0 (full ++ rest)) = length (full ++ rest)).
    { rewrite <- (timed_text (full ++ rest) 0) at 2. now rewrite length_map. }
    rewrite Hlen, length_app.
    destruct (Nat.lt_ge_cases i (length full)) as [Hi|Hi].
    + rewrite nth_error_app1 in Hc by exact Hi.
      apply nth_error_In in Hc.
      rewrite Forall_forall in Hfull. specialize (Hfull _ Hc). lia.
    + rewrite nth_error_app2 in Hc by exact Hi.
      destruct Hrest as [->|(l & -> & H1 & H2)].
      * destruct (i - length full)%nat; discriminate.
      * destruct (i - length full)%nat as [|j] eqn:Hj.
        -- cbn in Hc. injection Hc as <-. cbn [length]. lia.
        -- destruct j; discriminate.
  - reflexivity.
Qed.

Lemma generate_captions_partition_witness :
  (0 < 2)%Z /\
  let caps := generate_captions (lit "a b c") 2 in
  concat (map (fun c => split (text c)) caps) = split (lit "a b c")
  /\ split (join (lit " ") (map text caps)) = split (lit "a b c")
  /\ (forall i c, nth_error caps i = Some c ->
        (1 <= word_count (text c))%nat
        /\ (Z.of_nat (word_count (text c)) <= 2)%Z
        /\ ((S i < length caps)%nat -> Z.of_nat (word_count (text c)) = 2%Z))
  /\ generate_captions [] 2 = [].
Proof.
  split; [lia|]. apply (generate_captions_partition (lit "a b c") 2). lia.
Defined.





(** ** The speaking rate shared by the estimates *)

Section SpeakingRate.

(** With the identity for rounding the binary64 reading is the exact one. *)
Lemma binary64_exact (script : str) (k : Z) :
  Binary64.generate_captions (fun q => q) script k = generate_captions script k
  /\ Binary64.estimated_duration (fun q => q) script
     = estimated_duration script.
Proof. split; reflexivity. Qed.

Lemma binary64_timing (fl : Q -> Q) (texts : list str) :
  forall acc t,
    map text (fst (fold_left (Binary64.timing_step fl) texts (acc, t)))
    = map text acc ++ texts
    /\ map duration (fst (fold_left (Binary64.timing_step fl) texts (acc, t)))
       = map duration acc
         ++ map (fun c => fl (inject_Z (Z.of_nat (word_count c))
                              / Binary64.words_per_second fl)) texts.
Proof.
  induction texts as [|c rest IH]; intros acc t.
  - cbn. now rewrite !app_nil_r.
  - cbn [fold_left Binary64.timing_step].
    destruct (IH (acc ++
                    [{| text := c; start := t;
                        duration :=
                          fl (inject_Z (Z.of_nat (length (split c)))
                              / Binary64.words_per_second fl);
                        end_ :=
                          fl (t + fl (inject_Z (Z.of_nat (length (split c)))
                                      / Binary64.words_per_second fl)) |}])
                (fl (t + fl (inject_Z (Z.of_nat (length (split c)))
                             / Binary64.words_per_second fl))))
      as [I1 I2].
    rewrite I1, I2, !map_app, <- !app_assoc. split; reflexivity.
Qed.

Lemma total_duration_fold (fl : Q -> Q) (captions : list caption) :
  forall acc,
    fold_left (fun a c => fl (a + duration c)) captions acc
    = fold_left (fun a d => fl (a + d)) (map duration captions) acc.
Proof.
  induction captions as [|c rest IH]; intros acc; [reflexivity|].
  cbn [map fold_left]. apply IH.
Qed.

Lemma seg_duration_words (c : str) :
  seg_duration c == inject_Z (Z.of_nat (word_count c)) * (2 # 5).
Proof. unfold seg_duration, words_per_second. field. Qed.

Lemma seg_duration_nonneg (c : str) : 0 <= seg_duration c.
Proof. unfold seg_duration, word_count, Qle. cbn. lia. Qed.

Lemma Qsum_seg_nonneg (texts : list str) : 0 <= Qsum (map seg_duration texts).
Proof.
  induction texts as [|x rest IH]; [apply Qle_refl|].
  cbn [map Qsum fold_right]. fold (Qsum (map seg_duration rest)).
  pose proof (seg_duration_nonneg x). lra.
Qed.

Lemma seg_duration_word (c : str) :
  (1 <= word_count c)%nat -> 2 # 5 <= seg_duration c.
Proof.
  intros H. rewrite seg_duration_words.
  assert (P : 1 <= inject_Z (Z.of_nat (word_count c))).
  { change 1 with (inject_Z 1). rewrite <- Zle_Qle. lia. }
  lra.
Qed.

(** The duration of a caption: one rounding away from the exact one. *)
Lemma duration_rel (c : str) :
  (1 <= word_count c)%nat ->
  let d := PyFloat.fl (inject_Z (Z.of_nat (word_count c))
                       / Binary64.words_per_second PyFloat.fl) in
  (1 - PyFloat.unit_roundoff) * seg_duration c <= d
  /\ d <= (1 + PyFloat.unit_roundoff) * seg_duration c.
Proof.
  intros H. cbn zeta.
  assert (W : Binary64.words_per_second PyFloat.fl == 5 # 2)
    by (vm_compute; reflexivity).
  set (q := inject_Z (Z.of_nat (word_count c))
            / Binary64.words_per_second PyFloat.fl).
  assert (Eq : q == seg_duration c).
  { unfold q. rewrite W, seg_duration_words. field. }
  pose proof (seg_duration_word c H) as Hs.
  assert (Hq : 2 ^ (-1022) <= q).
  { rewrite Eq. apply Qle_trans with (2 := Hs). vm_compute. discriminate. }
  destruct (fl_rel q Hq) as [L U]. revert L U.
  generalize (PyFloat.fl q). intros d L U. rewrite Eq in L, U. now split.
Qed.

(** The running sum of the durations: two roundings a caption. *)
Lemma total_rel (texts : list str) :
  Forall (fun c => (1 <= word_count c)%nat) texts ->
  forall acc, 0 <= acc ->
    let total :=
      fold_left (fun a d => PyFloat.fl (a + d))
        (map (fun c => PyFloat.fl (inject_Z (Z.of_nat (word_count c))
                                   / Binary64.words_per_second PyFloat.fl))
             texts) acc in
    (1 - PyFloat.unit_roundoff) ^ Z.of_nat (2 * length texts)
      * (acc + Qsum (map seg_duration texts)) <= total
    /\ total
       <= (1 + PyFloat.unit_roundoff) ^ Z.of_nat (2 * length texts)
          * (acc + Qsum (map seg_duration texts)).
Proof.
  induction 1 as [|c rest Hc _ IH]; intros acc Hacc; cbn zeta.
  - cbn. split; lra.
  - cbn [map fold_left length Qsum fold_right].
    fold (Qsum (map seg_duration rest)).
    destruct (duration_rel c Hc) as [D1 D2]. cbn zeta in D1, D2.
    pose proof (seg_duration_word c Hc) as Hs.
    pose proof (Qsum_seg_nonneg rest) as Hr.
    revert D1 D2.
    generalize (PyFloat.fl (inject_Z (Z.of_nat (word_count c))
                            / Binary64.words_per_second PyFloat.fl)).
    intros d D1 D2. unfold PyFloat.unit_roundoff in D1, D2.
    assert (Hd : 2 ^ (-1022) <= acc + d).
    { apply Qle_trans with (1 # 4); [vm_compute; discriminate|lra]. }
    destruct (fl_rel (acc + d) Hd) as [A1 A2]. revert A1 A2.
    generalize (PyFloat.fl (acc + d)). intros a' A1 A2.
    unfold PyFloat.unit_roundoff in A1, A2.
    assert (Ha' : 0 <= a') by lra.
    destruct (IH a' Ha') as [I1 I2]. cbn zeta in I1, I2. revert I1 I2.
    generalize (fold_left (fun a d0 => PyFloat.fl (a + d0))
                  (map (fun c0 => PyFloat.fl
                                    (inject_Z (Z.of_nat (word_count c0))
                                     / Binary64.words_per_second PyFloat.fl))
                       rest) a').
    intros total I1 I2.
    replace (Z.of_nat (2 * S (length rest)))
      with (2 + Z.of_nat (2 * length rest))%Z by lia.
    rewrite !Qpower_plus by (vm_compute; discriminate).
    assert (P1 : 0 <= (1 - PyFloat.unit_roundoff) ^ Z.of_nat (2 * length rest))
      by (apply Qpower_0_le; vm_compute; discriminate).
    assert (P2 : 0 <= (1 + PyFloat.unit_roundoff) ^ Z.of_nat (2 * length rest))
      by (apply Qpower_0_le; vm_compute; discriminate).
    revert D1 D2 Hs Hr I1 I2 P1 P2.
    generalize ((1 - PyFloat.unit_roundoff) ^ Z.of_nat (2 * length rest))
               ((1 + PyFloat.unit_roundoff) ^ Z.of_nat (2 * length rest))
               (Qsum (map seg_duration rest)) (seg_duration c).
    intros p1 p2 rest_sum seg D1 D2 Hs Hr I1 I2 P1 P2.
    change ((1 - PyFloat.unit_roundoff) ^ 2)
      with ((1 - (1 # 9007199254740992)) * (1 - (1 # 9007199254740992))).
    change ((1 + PyFloat.unit_roundoff) ^ 2)
      with ((1 + (1 # 9007199254740992)) * (1 + (1 # 9007199254740992))).
    assert (X1 : (1 - (1 # 9007199254740992)) * (1 - (1 # 9007199254740992))
                 * (acc + (seg + rest_sum)) <= a' + rest_sum) by lra.
    assert (X2 : a' + rest_sum
                 <= (1 + (1 # 9007199254740992)) * (1 + (1 # 9007199254740992))
                    * (acc + (seg + rest_sum))) by lra.
    apply (fun H => Qmult_le_compat_r _ _ p1 H P1) in X1.
    apply (fun H => Qmult_le_compat_r _ _ p2 H P2) in X2.
    split; lra.
Qed.

(** The estimate of [optimize_for_platform]: two roundings. *)
Lemma estimated_rel (script : str) :
  let exact := inject_Z (Z.of_nat (length (split script))) / 150 * 60 in
  (1 - PyFloat.unit_roundoff) ^ 2 * exact
  <= Binary64.estimated_duration PyFloat.fl script
  /\ Binary64.estimated_duration PyFloat.fl script
     <= (1 + PyFloat.unit_roundoff) ^ 2 * exact
  /\ exists q,
       VoiceGenerator.estimate_duration script 1 = Ok q
       /\ q == Binary64.estimated_duration PyFloat.fl script.
Proof.
  cbn zeta. unfold Binary64.estimated_duration, VoiceGenerator.estimate_duration.
  change (Qeq_bool 1 0) with false. cbn iota.
  destruct (length (split script)) as [|n] eqn:E.
  { split; [vm_compute; discriminate|]. split; [vm_compute; discriminate|].
    eexists. split; [reflexivity|]. vm_compute. reflexivity. }
  assert (N : 1 <= inject_Z (Z.of_nat (S n))).
  { change 1 with (inject_Z 1). rewrite <- Zle_Qle. lia. }
  revert N. generalize (inject_Z (Z.of_nat (S n))). intros m N.
  assert (H1 : 2 ^ (-1022) <= m / 150).
  { apply Qle_trans with (1 # 150); [vm_compute; discriminate|].
    apply Qle_shift_div_l; [reflexivity|]. lra. }
  destruct (fl_rel _ H1) as [A1 A2].
  assert (Em : m / 150 == m * (1 # 150)) by (field; discriminate).
  rewrite Em in A1 at 1. rewrite Em in A2 at 2.
  unfold PyFloat.unit_roundoff in A1, A2.
  assert (H2 : 2 ^ (-1022) <= PyFloat.fl (m / 150) * 60).
  { apply Qle_trans with (1 # 4); [vm_compute; discriminate|]. lra. }
  destruct (fl_rel _ H2) as [B1 B2].
  unfold PyFloat.unit_roundoff in B1, B2.
  split; [|split].
  - change ((1 - PyFloat.unit_roundoff) ^ 2)
      with ((1 - (1 # 9007199254740992)) * (1 - (1 # 9007199254740992))).
    setoid_replace (m / 150 * 60) with (m * (2 # 5)) by field.
    revert A1 B1. generalize (PyFloat.fl (m / 150)). intros x1.
    generalize (PyFloat.fl (x1 * 60)). intros x2 A1 B1. lra.
  - change ((1 + PyFloat.unit_roundoff) ^ 2)
      with ((1 + (1 # 9007199254740992)) * (1 + (1 # 9007199254740992))).
    setoid_replace (m / 150 * 60) with (m * (2 # 5)) by field.
    revert A2 B2. generalize (PyFloat.fl (m / 150)). intros x1.
    generalize (PyFloat.fl (x1 * 60)). intros x2 A2 B2. lra.
  - eexists. split; [reflexivity|].
    apply fl_fixed; [exact H2|]. field.
Qed.

End SpeakingRate.

(** C7, as stated, fails in the arithmetic the program runs in: for the
    nine-word fox script in segments of five words the caption durations
    2.0 and 1.6 add up to 3.6, which is the float 8106479329266893 / 2^51,
    while [optimize_for_platform] and [estimate_duration] evaluate
    9 / 150 * 60 to the float below it, 3.5999999999999996. *)
Lemma speaking_rate_drifts :
  Binary64.total_duration PyFloat.fl
    (Binary64.generate_captions PyFloat.fl fox_script 5)
  == 8106479329266893 # 2251799813685248
  /\ Binary64.estimated_duration PyFloat.fl fox_script
     == 8106479329266892 # 2251799813685248
  /\ (exists q,
        VoiceGenerator.estimate_duration fox_script 1 = Ok q
        /\ q == 8106479329266892 # 2251799813685248)
  /\ ~ Binary64.total_duration PyFloat.fl
         (Binary64.generate_captions PyFloat.fl fox_script 5)
       == Binary64.estimated_duration PyFloat.fl fox_script.
Proof.
  split; [vm_compute; reflexivity|]. split; [vm_compute; reflexivity|].
  split; [eexists; split; [reflexivity|vm_compute; reflexivity]|].
  vm_compute. discriminate.
Qed.

(** C7, amended: the three estimates apply the same rate of 150 words a
    minute to the same words, and agree up to the rounding of their float
    operations.  For every script of [n] words and every positive segment
    size, the captions carry exactly the words of the script; the sum of
    their durations lies within a factor (1 -/+ 2^-53)^(2m) of the exact
    n / 150 * 60 seconds, [m] being the number of captions; the estimate of
    [optimize_for_platform] lies within a factor (1 -/+ 2^-53)^2 of it; and
    [estimate_duration] at speed 1.0 returns exactly the estimate of
    [optimize_for_platform]. *)
Theorem speaking_rate_shared (script : str) (k : Z) :
  (0 < k)%Z ->
  let exact := inject_Z (Z.of_nat (length (split script))) / 150 * 60 in
  let captions := Binary64.generate_captions PyFloat.fl script k in
  let total := Binary64.total_duration PyFloat.fl captions in
  let estimated := Binary64.estimated_duration PyFloat.fl script in
  concat (map (fun c => split (text c)) captions) = split script
  /\ (1 - PyFloat.unit_roundoff) ^ Z.of_nat (2 * length captions) * exact
     <= total
  /\ total
     <= (1 + PyFloat.unit_roundoff) ^ Z.of_nat (2 * length captions) * exact
  /\ (1 - PyFloat.unit_roundoff) ^ 2 * exact <= estimated
  /\ estimated <= (1 + PyFloat.unit_roundoff) ^ 2 * exact
  /\ (exists q,
        VoiceGenerator.estimate_duration script 1 = Ok q
        /\ q == estimated).
Proof.
  intros Hk. cbn zeta.
  destruct (binary64_timing PyFloat.fl (caption_texts script k) [] 0)
    as [T D]. cbn [map app] in T, D.
  fold (Binary64.generate_captions PyFloat.fl script k) in T, D.
  destruct (caption_texts_pos script k Hk)
    as (full & rest & Ht & Hfull & Hrest & Hcat).
  assert (Hwords : Forall (fun c => (1 <= word_count c)%nat)
                     (caption_texts script k)).
  { rewrite Ht. apply Forall_app. split.
    - eapply Forall_impl; [|exact Hfull]. cbn. intros c Hc. lia.
    - destruct Hrest as [->|(l & -> & H1 & _)]; repeat constructor.
      exact H1. }
  assert (Hlen : length (Binary64.generate_captions PyFloat.fl script k)
                 = length (caption_texts script k)).
  { rewrite <- T. now rewrite length_map. }
  assert (Hsum : Qsum (map seg_duration (caption_texts script k))
                 == inject_Z (Z.of_nat (length (split script))) / 150 * 60).
  { rewrite seg_duration_sum, Ht, Hcat. unfold words_per_second. field. }
  destruct (total_rel _ Hwords 0 (Qle_refl 0)) as [L U]. cbn zeta in L, U.
  rewrite <- D, <- total_duration_fold in L, U.
  fold (Binary64.total_duration PyFloat.fl
          (Binary64.generate_captions PyFloat.fl script k)) in L, U.
  rewrite Qplus_0_l, Hsum, <- Hlen in L, U.
  destruct (estimated_rel script) as (E1 & E2 & E3). cbn zeta in E1, E2.
  split.
  { rewrite <- (map_map text split), T, Ht. exact Hcat. }
  split; [exact L|]. split; [exact U|]. split; [exact E1|].
  split; [exact E2|exact E3].
Qed.

Lemma speaking_rate_shared_witness :
  (0 < 5)%Z /\
  let exact := inject_Z (Z.of_nat (length (split fox_script))) / 150 * 60 in
  let captions := Binary64.generate_captions PyFloat.fl fox_script 5 in
  let total := Binary64.total_duration PyFloat.fl captions in
  let estimated := Binary64.estimated_duration PyFloat.fl fox_script in
  concat (map (fun c => split (text c)) captions) = split fox_script
  /\ (1 - PyFloat.unit_roundoff) ^ Z.of_nat (2 * length captions) * exact
     <= total
  /\ total
     <= (1 + PyFloat.unit_roundoff) ^ Z.of_nat (2 * length captions) * exact
  /\ (1 - PyFloat.unit_roundoff) ^ 2 * exact <= estimated
  /\ estimated <= (1 + PyFloat.unit_roundoff) ^ 2 * exact
  /\ (exists q,
        VoiceGenerator.estimate_duration fox_script 1 = Ok q
        /\ q == estimated).
Proof.
  split; [lia|]. apply (speaking_rate_shared fox_script 5). lia.
Defined.

(** ** Platform optimisation *)

Section Optimize.

Lemma platform_limits_cases (platform : str) (lim : limits) :
  dict_get platform platform_limits = Some lim ->
  (platform = lit "tiktok" /\ lim = mk_limits 180 60)
  \/ (platform = lit "instagram" /\ lim = mk_limits 90 30)
  \/ (platform = lit "youtube" /\ lim = mk_limits 60 45).
Proof.
  unfold platform_limits. cbn [dict_get].
  repeat match goal with
         | |- context [list_eq_dec ?d ?a ?b] =>
             destruct (list_eq_dec d a b) as [->|_]
         end; intros H; try discriminate; injection H as <-; auto.
Qed.

Lemma estimated_duration_le (script : str) (o : Z) :
  Qle_bool (estimated_duration script) (inject_Z o) = true
  <-> (2 * Z.of_nat (length (split script)) <= 5 * o)%Z.
Proof.
  unfold estimated_duration, Qle_bool. cbn [Qnum Qden Qmult Qdiv Qinv inject_Z].
  rewrite Z.leb_le. cbn [Pos.mul]. lia.
Qed.

Lemma estimated_duration_gt (script : str) (o : Z) :
  Qle_bool (estimated_duration script) (inject_Z o) = false
  <-> (5 * o < 2 * Z.of_nat (length (split script)))%Z.
Proof.
  rewrite <- not_true_iff_false, estimated_duration_le. lia.
Qed.

(** The ellipsis marker is a word of its own. *)
Lemma ellipsis_word : wordb (lit "...") = true.
Proof. reflexivity. Qed.

(** What the truncating branch returns, for a table entry whose word
    budget [target] was computed from its optimal duration. *)
Lemma optimize_truncated (script platform : str) (lim : limits) (target : nat) :
  dict_get platform platform_limits = Some lim ->
  Qle_bool (estimated_duration script) (inject_Z (optimal_duration lim)) = false ->
  int_of_float ((inject_Z (optimal_duration lim) / 60) * 150) = Z.of_nat target ->
  (2 * Z.of_nat target <= 5 * optimal_duration lim)%Z ->
  optimize_for_platform script platform
  = join (lit " ") (firstn target (split script) ++ [lit "..."])
  /\ (target < length (split script))%nat.
Proof.
  intros Hget Hgt Htarget Hfit. unfold optimize_for_platform.
  rewrite Hget, Hgt, Htarget. apply estimated_duration_gt in Hgt.
  unfold slice_to. destruct (Z.leb_spec 0 (Z.of_nat target)) as [_|]; [|lia].
  rewrite Nat2Z.id, length_firstn.
  assert (Hlt : (target < length (split script))%nat) by lia.
  rewrite Nat.min_l by lia.
  apply Nat.ltb_lt in Hlt as Hb. rewrite Hb. now split.
Qed.

Lemma Forall_firstn {A} (P : A -> Prop) (n : nat) (l : list A) :
  Forall P l -> Forall P (firstn n l).
Proof.
  intros H. revert n. induction H as [|x l Hx _ IH]; intros [|n]; cbn;
    constructor; auto.
Qed.

Lemma truncated_words (script : str) (target : nat) :
  Forall (fun w => wordb w = true) (firstn target (split script) ++ [lit "..."]).
Proof.
  apply Forall_app. split.
  - apply Forall_firstn, split_all_words.
  - constructor; [exact ellipsis_word|constructor].
Qed.

Lemma Qlt_Qle_bool_false (a b : Q) : a < b -> Qle_bool b a = false.
Proof.
  intros H. apply not_true_iff_false. rewrite Qle_bool_iff.
  now apply Qlt_not_le.
Qed.

Lemma dict_get_unknown (platform : str) :
  platform <> lit "tiktok" -> platform <> lit "instagram" ->
  platform <> lit "youtube" ->
  dict_get platform platform_limits = None.
Proof.
  intros H1 H2 H3. unfold platform_limits. cbn [dict_get].
  repeat match goal with
         | |- context [list_eq_dec ?d ?a ?b] =>
             destruct (list_eq_dec d a b) as [?|_]; [contradiction|]
         end.
  reflexivity.
Qed.

(** The truncating branch, with the word budget written as in the
    specification: [floor(optimal_duration / 60 * 150)]. *)
Lemma optimize_over_budget (script platform : str) (lim : limits) :
  dict_get platform platform_limits = Some lim ->
  inject_Z (optimal_duration lim) < estimated_duration script ->
  let target :=
    Z.to_nat (Qfloor (inject_Z (optimal_duration lim) / 60 * 150)) in
  optimize_for_platform script platform
  = join (lit " ") (firstn target (split script) ++ [lit "..."])
  /\ (target < length (split script))%nat
  /\ (2 * Z.of_nat target <= 5 * optimal_duration lim)%Z.
Proof.
  intros Hget Hlt. apply Qlt_Qle_bool_false in Hlt.
  destruct (platform_limits_cases _ _ Hget) as [[_ ->]|[[_ ->]|[_ ->]]];
    cbn zeta.
  - change (Z.to_nat (Qfloor _)) with 150%nat.
    destruct (optimize_truncated script platform _ 150 Hget Hlt) as [H1 H2];
      [reflexivity|cbn; lia|]. split; [exact H1|]. split; [exact H2|cbn; lia].
  - change (Z.to_nat (Qfloor _)) with 75%nat.
    destruct (optimize_truncated script platform _ 75 Hget Hlt) as [H1 H2];
      [reflexivity|cbn; lia|]. split; [exact H1|]. split; [exact H2|cbn; lia].
  - change (Z.to_nat (Qfloor _)) with 112%nat.
    destruct (optimize_truncated script platform _ 112 Hget Hlt) as [H1 H2];
      [reflexivity|cbn; lia|]. split; [exact H1|]. split; [exact H2|cbn; lia].
Qed.

(** The result never has more words than the budget and the marker. *)
Lemma optimize_word_budget (script platform : str) (lim : limits) :
  dict_get platform platform_limits = Some lim ->
  (length (split (optimize_for_platform script platform))
   <= Z.to_nat (Qfloor (inject_Z (optimal_duration lim) / 60 * 150)) + 1)%nat.
Proof.
  intros Hget.
  destruct (Qlt_le_dec (inject_Z (optimal_duration lim))
              (estimated_duration script)) as [H|H].
  - destruct (optimize_over_budget _ _ _ Hget H) as (He & Hn & _).
    cbn zeta in *. rewrite He.
    rewrite split_join_words by apply truncated_words.
    rewrite length_app, length_firstn. cbn [length]. lia.
  - assert (E : optimize_for_platform script platform = script).
    { apply Qle_bool_iff in H. unfold optimize_for_platform.
      now rewrite Hget, H. }
    rewrite E. apply Qle_bool_iff, estimated_duration_le in H.
    destruct (platform_limits_cases _ _ Hget) as [[_ ->]|[[_ ->]|[_ ->]]];
      cbn [optimal_duration] in *.
    + change (Z.to_nat (Qfloor _)) with 150%nat. lia.
    + change (Z.to_nat (Qfloor _)) with 75%nat. lia.
    + change (Z.to_nat (Qfloor _)) with 112%nat. lia.
Qed.

End Optimize.

(** C4: for a platform of the table and a script whose estimated duration
    exceeds the platform's optimal duration, the result is the first
    [floor(optimal_duration / 60 * 150)] words of the script followed by the
    ellipsis marker, joined by single spaces; a script of 200 words is cut
    for youtube to its first 112 words plus the marker; for a platform name
    outside the table the script is returned unchanged. *)
Theorem optimize_for_platform_truncates (script platform : str) :
  (forall lim,
      dict_get platform platform_limits = Some lim ->
      inject_Z (optimal_duration lim) < estimated_duration script ->
      optimize_for_platform script platform
      = join (lit " ")
          (firstn (Z.to_nat (Qfloor (inject_Z (optimal_duration lim) / 60 * 150)))
                  (split script)
           ++ [lit "..."]))
  /\ (length (split script) = 200%nat ->
      optimize_for_platform script (lit "youtube")
      = join (lit " ") (firstn 112 (split script) ++ [lit "..."])
      /\ split (optimize_for_platform script (lit "youtube"))
         = firstn 112 (split script) ++ [lit "..."])
  /\ (platform <> lit "tiktok" -> platform <> lit "instagram" ->
      platform <> lit "youtube" ->
      optimize_for_platform script platform = script).
Proof.
  split; [|split].
  - intros lim Hget Hlt. exact (proj1 (optimize_over_budget _ _ _ Hget Hlt)).
  - intros Hlen.
    assert (Hlt : inject_Z (optimal_duration (mk_limits 60 45))
                  < estimated_duration script).
    { unfold estimated_duration. rewrite Hlen. reflexivity. }
    destruct (optimize_over_budget script (lit "youtube") _ eq_refl Hlt)
      as (H & _ & _).
    change (Z.to_nat (Qfloor _)) with 112%nat in H. rewrite H.
    split; [reflexivity|]. apply split_join_words, truncated_words.
  - intros H1 H2 H3. unfold optimize_for_platform.
    now rewrite dict_get_unknown.
Qed.

Lemma optimize_for_platform_truncates_witness :
  length (split script_200_words) = 200%nat
  /\ inject_Z 45 < estimated_duration script_200_words
  /\ optimize_for_platform script_200_words (lit "youtube")
     = join (lit " ") (repeat (lit "w") 112 ++ [lit "..."])
  /\ optimize_for_platform script_200_words (lit "vimeo") = script_200_words.
Proof.
  assert (Hlen : length (split script_200_words) = 200%nat)
    by (vm_compute; reflexivity).
  assert (Hlt : inject_Z 45 < estimated_duration script_200_words)
    by (vm_compute; reflexivity).
  split; [exact Hlen|]. split; [exact Hlt|]. split.
  - destruct (optimize_for_platform_truncates script_200_words (lit "youtube"))
      as (H & _ & _).
    rewrite (H (mk_limits 60 45) eq_refl Hlt). vm_compute. reflexivity.
  - destruct (optimize_for_platform_truncates script_200_words (lit "vimeo"))
      as (_ & _ & H).
    apply H; intros E; vm_compute in E; discriminate E.
Defined.

(** C1, as stated, fails: cut for instagram (optimal duration 30 s), the
    76-word script comes back as 75 words plus the ellipsis marker, 76
    whitespace-separated tokens, whose estimated speaking time is 30.4 s. *)
Lemma optimize_for_platform_exceeds_optimal :
  dict_get (lit "instagram") platform_limits = Some (mk_limits 90 30)
  /\ length (split (optimize_for_platform script_76_words (lit "instagram")))
     = 76%nat
  /\ estimated_duration
       (optimize_for_platform script_76_words (lit "instagram")) == 152 # 5
  /\ ~ estimated_duration
         (optimize_for_platform script_76_words (lit "instagram"))
       <= inject_Z 30.
Proof.
  split; [reflexivity|]. split; [vm_compute; reflexivity|].
  split; [vm_compute; reflexivity|].
  apply Qlt_not_le. vm_compute. reflexivity.
Qed.

(** C1, amended: for a platform of the table (tiktok 60 s, instagram 30 s,
    youtube 45 s) a script whose estimated duration is at most the optimal
    duration is returned unchanged; a longer one is returned as its first
    [floor(optimal_duration / 60 * 150)] words followed by the ellipsis
    marker, where the kept words alone fit the optimal duration; counting
    the marker as a word, the result never has more than one word above
    that budget. *)
Theorem optimize_for_platform_bound (script platform : str) (lim : limits) :
  dict_get platform platform_limits = Some lim ->
  In (platform, optimal_duration lim)
     [(lit "tiktok", 60%Z); (lit "instagram", 30%Z); (lit "youtube", 45%Z)]
  /\ (estimated_duration script <= inject_Z (optimal_duration lim) ->
      optimize_for_platform script platform = script)
  /\ (inject_Z (optimal_duration lim) < estimated_duration script ->
      let kept :=
        firstn (Z.to_nat (Qfloor (inject_Z (optimal_duration lim) / 60 * 150)))
               (split script) in
      optimize_for_platform script platform
      = join (lit " ") (kept ++ [lit "..."])
      /\ split (optimize_for_platform script platform) = kept ++ [lit "..."]
      /\ estimated_duration (join (lit " ") kept)
         <= inject_Z (optimal_duration lim))
  /\ (length (split (optimize_for_platform script platform))
      <= Z.to_nat (Qfloor (inject_Z (optimal_duration lim) / 60 * 150)) + 1)%nat.
Proof.
  intros Hget.
  assert (Hle : estimated_duration script <= inject_Z (optimal_duration lim) ->
                optimize_for_platform script platform = script).
  { intros H. apply Qle_bool_iff in H. unfold optimize_for_platform.
    now rewrite Hget, H. }
  assert (Hgt : inject_Z (optimal_duration lim) < estimated_duration script ->
      let kept :=
        firstn (Z.to_nat (Qfloor (inject_Z (optimal_duration lim) / 60 * 150)))
               (split script) in
      optimize_for_platform script platform
      = join (lit " ") (kept ++ [lit "..."])
      /\ split (optimize_for_platform script platform) = kept ++ [lit "..."]
      /\ estimated_duration (join (lit " ") kept)
         <= inject_Z (optimal_duration lim)).
  { intros H. destruct (optimize_over_budget _ _ _ Hget H) as (He & Hn & Hfit).
    cbn zeta in *. split; [exact He|]. split.
    - rewrite He. apply split_join_words, truncated_words.
    - apply Qle_bool_iff, estimated_duration_le.
      rewrite split_join_words
        by (apply Forall_firstn, split_all_words).
      rewrite length_firstn. lia. }
  split; [|split; [exact Hle|split; [exact Hgt|]]].
  - destruct (platform_limits_cases _ _ Hget) as [[-> ->]|[[-> ->]|[-> ->]]];
      cbn; auto.
  - now apply optimize_word_budget.
Qed.

Lemma optimize_for_platform_bound_witness :
  dict_get (lit "instagram") platform_limits = Some (mk_limits 90 30)
  /\ (length (split (optimize_for_platform script_76_words (lit "instagram")))
      <= 75 + 1)%nat.
Proof.
  split; [reflexivity|].
  exact (proj2 (proj2 (proj2
    (optimize_for_platform_bound script_76_words (lit "instagram")
       (mk_limits 90 30) eq_refl)))).
Defined.

(** ** Text cleaning *)

Section Replace.

Variables (o : N) (old' new : str).

Lemma startswith_length (p s : str) :
  startswith p s = true -> (length p <= length s)%nat.
Proof.
  revert s. induction p as [|a p IH]; intros [|b s] H; cbn in *;
    try lia; try discriminate.
  apply andb_prop in H as [_ H]. specialize (IH _ H). lia.
Qed.

Lemma replace_from_skip (k : nat) (s : str) :
  replace_from (o :: old') new k s = replace_from (o :: old') new 0 (skipn k s).
Proof.
  revert k. induction s as [|c t IH]; intros [|k]; try reflexivity.
  cbn [replace_from skipn]. apply IH.
Qed.

Lemma replace_hit (c : N) (t : str) :
  startswith (o :: old') (c :: t) = true ->
  replace (o :: old') new (c :: t) = new ++ replace (o :: old') new (skipn (length old') t).
Proof.
  intros H. unfold replace. cbn [replace_from]. rewrite H.
  cbn [length Nat.sub]. rewrite Nat.sub_0_r.
  now rewrite replace_from_skip.
Qed.

Lemma replace_miss (c : N) (t : str) :
  startswith (o :: old') (c :: t) = false ->
  replace (o :: old') new (c :: t) = c :: replace (o :: old') new t.
Proof. intros H. unfold replace. cbn [replace_from]. now rewrite H. Qed.

Lemma replace_length_le :
  (length new <= length (o :: old'))%nat ->
  forall n s, (length s <= n)%nat ->
    (length (replace (o :: old') new s) <= length s)%nat.
Proof.
  intros Hnew. induction n as [|n IH]; intros [|c t] Hs; cbn in Hs;
    try (cbn; lia).
  destruct (startswith (o :: old') (c :: t)) eqn:E.
  - rewrite replace_hit by exact E. apply startswith_length in E.
    rewrite length_app. cbn [length] in *.
    assert (H := IH (skipn (length old') t)). rewrite length_skipn in H.
    specialize (H ltac:(lia)). lia.
  - rewrite replace_miss by exact E. cbn [length].
    specialize (IH t ltac:(lia)). lia.
Qed.

Lemma replace_length_lt :
  (length new < length (o :: old'))%nat ->
  forall s, contains (o :: old') s = true ->
    (length (replace (o :: old') new s) < length s)%nat.
Proof.
  intros Hnew. induction s as [|c t IH]; intros Hc; [discriminate|].
  destruct (startswith (o :: old') (c :: t)) eqn:E.
  - rewrite replace_hit by exact E. apply startswith_length in E.
    rewrite length_app. cbn [length] in *.
    assert (H := replace_length_le ltac:(cbn; lia) _
                   (skipn (length old') t) (le_n _)).
    rewrite length_skipn in H. lia.
  - rewrite replace_miss by exact E. cbn [length].
    cbn [contains] in Hc. rewrite E in Hc. cbn [orb] in Hc.
    specialize (IH Hc). lia.
Qed.

(** The loop ends with the pattern gone, and keeps every property that one
    replacement keeps. *)
Lemma replace_while_spec (P : str -> Prop) :
  (length new < length (o :: old'))%nat ->
  (forall s, P s -> P (PyStr.replace (o :: old') new s)) ->
  forall fuel s, (length s < fuel)%nat -> P s ->
    exists r, PDFProcessor.replace_while (o :: old') new fuel s = Some r
              /\ contains (o :: old') r = false /\ P r.
Proof.
  intros Hnew HP. induction fuel as [|fuel IH]; intros s Hs Ps; [lia|].
  cbn [PDFProcessor.replace_while].
  destruct (contains (o :: old') s) eqn:E.
  - apply IH; [|now apply HP].
    pose proof (replace_length_lt Hnew s E). lia.
  - now exists s.
Qed.

Lemma replace_while_fixed (fuel : nat) (s : str) :
  contains (o :: old') s = false ->
  PDFProcessor.replace_while (o :: old') new (S fuel) s = Some s.
Proof. intros E. cbn [PDFProcessor.replace_while]. now rewrite E. Qed.

End Replace.

Section CleanText.

Lemma contains_tail (p : str) (c : N) (t : str) :
  contains p (c :: t) = false -> contains p t = false.
Proof. cbn [contains]. intros H. now apply orb_false_elim in H. Qed.

Lemma startswith_cons (a b : N) (p s : str) :
  startswith (a :: p) (b :: s) = (a =? b)%N && startswith p s.
Proof. reflexivity. Qed.

Lemma startswith_app (p m b : str) :
  startswith p m = true -> startswith p (m ++ b) = true.
Proof.
  revert m. induction p as [|a p IH]; intros [|x m] H; cbn in *;
    try reflexivity; try discriminate.
  apply andb_prop in H as [H1 H2]. now rewrite H1, (IH _ H2).
Qed.

Lemma contains_app_l (p m b : str) :
  contains p m = true -> contains p (m ++ b) = true.
Proof.
  induction m as [|x m IH]; intros H.
  - cbn in H. rewrite orb_false_r in H.
    destruct p; [|discriminate]. destruct b; reflexivity.
  - cbn [contains] in H. apply orb_prop in H as [H|H].
    + change ((x :: m) ++ b) with (x :: (m ++ b)). cbn [contains].
      change (x :: (m ++ b)) with ((x :: m) ++ b).
      now rewrite (startswith_app _ _ b H).
    + change ((x :: m) ++ b) with (x :: (m ++ b)). cbn [contains].
      rewrite (IH H). apply orb_true_r.
Qed.

Lemma contains_app_r (p a m : str) :
  contains p m = true -> contains p (a ++ m) = true.
Proof.
  intros H. induction a as [|x a IH]; [exact H|].
  change ((x :: a) ++ m) with (x :: (a ++ m)). cbn [contains].
  rewrite IH. apply orb_true_r.
Qed.

Lemma lstrip_suffix (s : str) : exists a, s = a ++ lstrip s.
Proof.
  induction s as [|c t [a IH]]; [now exists []|].
  cbn [lstrip]. destruct (isspace c).
  - exists (c :: a). cbn. now rewrite <- IH.
  - now exists [].
Qed.

Lemma rstrip_prefix (s : str) : exists b, s = rstrip s ++ b.
Proof.
  unfold rstrip. destruct (lstrip_suffix (rev s)) as [a Ha].
  exists (rev a). rewrite <- rev_app_distr, <- Ha. now rewrite rev_involutive.
Qed.

(** Stripping leaves a contiguous part of the text, so it cannot create an
    occurrence of a pattern. *)
Lemma strip_contains (p s : str) :
  contains p s = false -> contains p (strip s) = false.
Proof.
  intros H. apply not_true_iff_false. intros C.
  apply not_true_iff_false in H. apply H. unfold strip in C.
  destruct (lstrip_suffix s) as [a Ha].
  destruct (rstrip_prefix (lstrip s)) as [b Hb].
  rewrite Ha, Hb. now apply contains_app_r, contains_app_l.
Qed.

Lemma lstrip_leading (s : str) : leading_ws (lstrip s) = false.
Proof.
  induction s as [|c t IH]; [reflexivity|].
  cbn [lstrip]. destruct (isspace c) eqn:E; [exact IH|]. cbn. exact E.
Qed.

Lemma lstrip_id (s : str) : leading_ws s = false -> lstrip s = s.
Proof. destruct s as [|c t]; [reflexivity|]. cbn. now intros ->. Qed.

Lemma strip_leading (s : str) : leading_ws (strip s) = false.
Proof.
  unfold strip. pose proof (lstrip_leading s) as H.
  destruct (rstrip_prefix (lstrip s)) as [b Hb].
  destruct (rstrip (lstrip s)) as [|x r]; [reflexivity|].
  rewrite Hb in H. exact H.
Qed.

Lemma strip_trailing (s : str) : trailing_ws (strip s) = false.
Proof.
  unfold trailing_ws, strip, rstrip. rewrite rev_involutive.
  apply lstrip_leading.
Qed.

Lemma strip_id (s : str) :
  leading_ws s = false -> trailing_ws s = false -> strip s = s.
Proof.
  intros Hl Ht. unfold strip, rstrip. rewrite (lstrip_id s Hl).
  rewrite (lstrip_id (rev s) Ht). apply rev_involutive.
Qed.

(** Replacing double spaces does not bring two non-space characters next
    to each other: a prefix without spaces of the result was already a
    prefix of the text. *)
Lemma startswith_replace_spaces (p : str) :
  forallb (fun a => negb (a =? 32)%N) p = true ->
  forall t,
    startswith p (replace [32; 32]%N [32%N] t) = true ->
    startswith p t = true.
Proof.
  induction p as [|a p IH]; intros Hp t H; [reflexivity|].
  cbn [forallb] in Hp. apply andb_prop in Hp as [Ha Hp].
  apply negb_true_iff in Ha.
  destruct t as [|c t]; [cbn in H; discriminate H|].
  destruct (startswith [32; 32]%N (c :: t)) eqn:E.
  - rewrite replace_hit in H by exact E. cbn [app startswith] in H.
    rewrite Ha in H. discriminate H.
  - rewrite replace_miss in H by exact E. cbn [startswith] in H |- *.
    apply andb_prop in H as [H1 H2]. now rewrite H1, (IH Hp t H2).
Qed.

Lemma replace_spaces_keeps_newline_runs :
  forall n s, (length s <= n)%nat ->
    contains [10; 10; 10]%N s = false ->
    contains [10; 10; 10]%N (replace [32; 32]%N [32%N] s) = false.
Proof.
  induction n as [|n IH]; intros [|c t] Hs H; cbn [length] in Hs;
    try reflexivity; try lia.
  destruct (startswith [32; 32]%N (c :: t)) eqn:E.
  - rewrite replace_hit by exact E. cbn [length skipn app].
    destruct t as [|d t'];
      [cbn in E; apply andb_prop in E as [_ E]; discriminate E|].
    apply contains_tail in H. apply contains_tail in H.
    cbn [length] in Hs. specialize (IH t' ltac:(lia) H).
    cbn [contains]. rewrite IH.
    cbn [startswith]. change (10 =? 32)%N with false. reflexivity.
  - rewrite replace_miss by exact E. cbn [contains].
    rewrite (IH t ltac:(lia) (contains_tail _ _ _ H)), orb_false_r.
    apply not_true_iff_false. intros C.
    rewrite startswith_cons in C. apply andb_prop in C as [C1 C2].
    apply startswith_replace_spaces in C2; [|reflexivity].
    cbn [contains] in H. apply orb_false_elim in H as [H _].
    rewrite startswith_cons, C1, C2 in H. discriminate H.
Qed.

End CleanText.

(** C9: [_clean_text] returns for every text, and its result is a fixed
    point of [_clean_text] that contains no two consecutive spaces and no
    three consecutive newlines and neither starts nor ends with
    whitespace. *)
Theorem clean_text_idempotent (t : str) :
  exists r,
    PDFProcessor._clean_text t = Some r
    /\ PDFProcessor._clean_text r = Some r
    /\ contains (lit "  ") r = false
    /\ contains [10; 10; 10]%N r = false
    /\ leading_ws r = false
    /\ trailing_ws r = false.
Proof.
  unfold PDFProcessor._clean_text. change (lit "  ") with [32; 32]%N.
  change (lit " ") with [32%N].
  destruct (replace_while_spec 10%N [10%N; 10%N] [10; 10]%N (fun _ => True)
              ltac:(cbn; lia) (fun _ _ => I) (S (length t)) t
              ltac:(lia) I)
    as (t1 & E1 & N1 & _).
  rewrite E1.
  destruct (replace_while_spec 32%N [32%N] [32%N]
              (fun s => contains [10; 10; 10]%N s = false)
              ltac:(cbn; lia)
              (fun s => replace_spaces_keeps_newline_runs _ s (le_n _))
              (S (length t1)) t1 ltac:(lia) N1)
    as (t2 & E2 & N2 & N3).
  rewrite E2. exists (strip t2).
  assert (S2 : contains [32; 32]%N (strip t2) = false)
    by now apply strip_contains.
  assert (S3 : contains [10; 10; 10]%N (strip t2) = false)
    by now apply strip_contains.
  split; [reflexivity|]. split; [|repeat split; auto using strip_leading, strip_trailing].
  rewrite replace_while_fixed by exact S3.
  rewrite replace_while_fixed by exact S2.
  now rewrite strip_id by auto using strip_leading, strip_trailing.
Qed.

(** ** Background preparation *)

Section Background.

Import VideoAssembler.

Lemma int_of_float_floor (q : Q) : 0 <= q -> int_of_float q = Qfloor q.
Proof.
  destruct q as [n d]. unfold Qle, int_of_float, Qfloor. cbn [Qnum Qden].
  intros H. apply Z.quot_div_nonneg; lia.
Qed.

Lemma truthy_nonzero (q : Q) : ~ q == 0 -> truthy (Some q) = Some q.
Proof.
  intros H. unfold truthy. destruct (Qeq_bool q 0) eqn:C; [|reflexivity].
  now apply Qeq_bool_iff in C.
Qed.

Lemma or_default_None (d : Q) : or_default None d = d.
Proof. reflexivity. Qed.

Lemma or_default_nonzero (q d : Q) : ~ q == 0 -> or_default (Some q) d = q.
Proof. intros H. unfold or_default. now rewrite truthy_nonzero. Qed.

Lemma int_of_float_or_zero (q : Q) :
  int_of_float (or_default (Some q) 0) = int_of_float q.
Proof.
  unfold or_default, truthy. destruct (Qeq_bool q 0) eqn:C; [|reflexivity].
  apply Qeq_bool_iff in C. unfold Qeq in C. cbn in C.
  unfold int_of_float. rewrite Z.mul_1_r in C. rewrite C. reflexivity.
Qed.

Lemma int_of_float_inject_Z (z : Z) : int_of_float (inject_Z z) = z.
Proof. unfold int_of_float. cbn. apply Z.quot_1_r. Qed.

Lemma half_nonzero (z : Z) : (0 < z)%Z -> ~ inject_Z z / 2 == 0.
Proof. intros H C. unfold Qeq in C. cbn in C. lia. Qed.

Lemma centre_plus_nonzero (z n : Z) :
  (0 < z)%Z -> (0 <= n)%Z -> ~ inject_Z z / 2 + inject_Z n / 2 == 0.
Proof. intros H Hn C. unfold Qeq in C. cbn in C. lia. Qed.

(** The truncated bounds of a window of [n] pixels centred at [c / 2]. *)
Lemma centred_window (c n : Z) :
  (0 <= n <= c)%Z ->
  let a := int_of_float (inject_Z c / 2 - inject_Z n / 2) in
  let b := int_of_float (inject_Z c / 2 + inject_Z n / 2) in
  (b - a = n)%Z /\ (0 <= a)%Z /\ (b <= c)%Z /\ (0 <= (c - b) - a <= 1)%Z.
Proof.
  intros H. cbn zeta.
  unfold int_of_float, Qminus, Qplus, Qopp, Qdiv, Qmult, Qinv, inject_Z.
  cbn [Qnum Qden Pos.mul].
  rewrite !Z.quot_div_nonneg by lia.
  pose proof (Z.div_mod (c * 1 * 2 + - (n * 1) * 2) 4 ltac:(lia)) as Da.
  pose proof (Z.mod_pos_bound (c * 1 * 2 + - (n * 1) * 2) 4 ltac:(lia)) as Ra.
  pose proof (Z.div_mod (c * 1 * 2 + n * 1 * 2) 4 ltac:(lia)) as Db.
  pose proof (Z.mod_pos_bound (c * 1 * 2 + n * 1 * 2) 4 ltac:(lia)) as Rb.
  revert Da Ra Db Rb.
  generalize ((c * 1 * 2 + - (n * 1) * 2) / 4)%Z
             ((c * 1 * 2 + - (n * 1) * 2) mod 4)%Z
             ((c * 1 * 2 + n * 1 * 2) / 4)%Z
             ((c * 1 * 2 + n * 1 * 2) mod 4)%Z.
  intros qa ra qb rb Da Ra Db Rb. lia.
Qed.

Lemma crop_width_window (w0 h0 nw : Z) (nd : Q) :
  (0 < w0)%Z -> (0 <= h0)%Z -> (0 <= nw <= w0)%Z ->
  let c := crop (VideoFileClip w0 h0 nd) (Some (inject_Z w0 / 2)) None nw h0 in
  (x2 c - x1 c = nw)%Z /\ (0 <= (w0 - x2 c) - x1 c <= 1)%Z /\ (0 <= x1 c)%Z
  /\ y1 c = 0%Z /\ y2 c = h0 /\ w c = nw /\ h c = h0
  /\ duration c = nd /\ copies c = 1%Z /\ t_start c = 0.
Proof.
  intros Hw Hh Hn. cbn zeta. unfold crop, VideoFileClip, slice_len.
  cbn [w h x1 x2 y1 y2 duration copies t_start].
  rewrite (truthy_nonzero _ (half_nonzero w0 Hw)).
  change (truthy None) with (@None Q). cbn iota beta.
  rewrite !or_default_None, int_of_float_or_zero.
  rewrite (or_default_nonzero _ _ (centre_plus_nonzero w0 nw Hw (proj1 Hn))).
  rewrite int_of_float_inject_Z. change (int_of_float 0) with 0%Z.
  cbn [w h x1 x2 y1 y2 duration copies t_start].
  destruct (centred_window w0 nw Hn) as (B1 & B2 & B3 & B4). cbn zeta in *.
  revert B1 B2 B3 B4.
  generalize (int_of_float (inject_Z w0 / 2 - inject_Z nw / 2))
             (int_of_float (inject_Z w0 / 2 + inject_Z nw / 2)).
  intros a b B1 B2 B3 B4. repeat split; try reflexivity; lia.
Qed.

Lemma crop_height_window (w0 h0 nh : Z) (nd : Q) :
  (0 <= w0)%Z -> (0 < h0)%Z -> (0 <= nh <= h0)%Z ->
  let c := crop (VideoFileClip w0 h0 nd) None (Some (inject_Z h0 / 2)) w0 nh in
  (y2 c - y1 c = nh)%Z /\ (0 <= (h0 - y2 c) - y1 c <= 1)%Z /\ (0 <= y1 c)%Z
  /\ x1 c = 0%Z /\ x2 c = w0 /\ w c = w0 /\ h c = nh
  /\ duration c = nd /\ copies c = 1%Z /\ t_start c = 0.
Proof.
  intros Hw Hh Hn. cbn zeta. unfold crop, VideoFileClip, slice_len.
  cbn [w h x1 x2 y1 y2 duration copies t_start].
  rewrite (truthy_nonzero _ (half_nonzero h0 Hh)).
  change (truthy None) with (@None Q). cbn iota beta.
  rewrite !or_default_None, int_of_float_or_zero.
  rewrite (or_default_nonzero _ _ (centre_plus_nonzero h0 nh Hh (proj1 Hn))).
  rewrite int_of_float_inject_Z. change (int_of_float 0) with 0%Z.
  cbn [w h x1 x2 y1 y2 duration copies t_start].
  destruct (centred_window h0 nh Hn) as (B1 & B2 & B3 & B4). cbn zeta in *.
  revert B1 B2 B3 B4.
  generalize (int_of_float (inject_Z h0 / 2 - inject_Z nh / 2))
             (int_of_float (inject_Z h0 / 2 + inject_Z nh / 2)).
  intros a b B1 B2 B3 B4. repeat split; try reflexivity; lia.
Qed.

(** The two crop sizes and how close they are to the 9:16 ratio. *)
Lemma new_width_bounds (h0 : Z) :
  (0 <= h0)%Z ->
  let new_width := int_of_float (inject_Z h0 * aspect_ratio) in
  (16 * new_width <= 9 * h0 < 16 * new_width + 16)%Z.
Proof.
  intros Hh. cbn zeta. unfold int_of_float, aspect_ratio, Qdiv, Qmult, Qinv, inject_Z.
  cbn [Qnum Qden Pos.mul]. Z.to_euclidean_division_equations; lia.
Qed.

Lemma new_height_bounds (w0 : Z) :
  (0 <= w0)%Z ->
  let new_height := int_of_float (inject_Z w0 / aspect_ratio) in
  (9 * new_height <= 16 * w0 < 9 * new_height + 9)%Z.
Proof.
  intros Hh. cbn zeta.
  change (inject_Z w0 / aspect_ratio) with (inject_Z w0 * (16 # 9)).
  unfold int_of_float, Qmult, inject_Z.
  cbn [Qnum Qden Pos.mul]. Z.to_euclidean_division_equations; lia.
Qed.

Lemma aspect_wider (w0 h0 : Z) :
  (0 < h0)%Z ->
  Qlt_bool aspect_ratio (inject_Z w0 / inject_Z h0) = true
  <-> (9 * h0 < 16 * w0)%Z.
Proof.
  intros Hh. unfold Qlt_bool. rewrite negb_true_iff, <- not_true_iff_false.
  rewrite Qle_bool_iff. destruct h0 as [|p|p]; try lia.
  unfold Qle, aspect_ratio, Qdiv, Qmult, Qinv, inject_Z.
  cbn [Qnum Qden Pos.mul]. lia.
Qed.

Lemma Qlt_bool_iff (a b : Q) : Qlt_bool a b = true <-> a < b.
Proof.
  unfold Qlt_bool. rewrite negb_true_iff, <- not_true_iff_false, Qle_bool_iff.
  split; [apply Qnot_le_lt|apply Qlt_not_le].
Qed.

Lemma loop_trim_spec (c : clip) (target : Q) :
  0 < duration c -> 0 < target ->
  target / duration c < inject_Z (2 ^ 52) ->
  exists c',
    loop_trim c target = Ok c'
    /\ w c' = w c /\ h c' = h c
    /\ x1 c' = x1 c /\ x2 c' = x2 c /\ y1 c' = y1 c /\ y2 c' = y2 c
    /\ duration c' == target
    /\ t_start c' == t_start c
    /\ (duration c < target ->
        exists n_loops,
          copies c' = (n_loops * copies c)%Z
          /\ (2 <= n_loops)%Z
          /\ (Qfloor (target / duration c) + 1 <= n_loops
              <= Qfloor (target / duration c) + 2)%Z
          /\ target < inject_Z n_loops * duration c)
    /\ (target <= duration c -> copies c' = copies c).
Proof.
  intros Hd Ht Hb. unfold loop_trim.
  assert (Hnz : ~ duration c == 0) by (intros E; rewrite E in Hd; discriminate Hd).
  destruct (Qlt_bool (duration c) target) eqn:L.
  - assert (E : Qeq_bool (duration c) 0 = false).
    { apply not_true_iff_false. intros C. now apply Qeq_bool_iff in C. }
    rewrite E. apply Qlt_bool_iff in L.
    assert (H1 : 1 <= target / duration c).
    { apply Qle_shift_div_l; [exact Hd|]. rewrite Qmult_1_l.
      now apply Qlt_le_weak. }
    destruct (round64_quotient _ H1 Hb) as (n & -> & Hn).
    eexists. split; [reflexivity|].
    cbn [subclip concatenate_copies w h x1 x2 y1 y2 duration t_start copies].
    repeat split; try reflexivity.
    + unfold Qminus. now rewrite Qplus_0_r.
    + now rewrite Qplus_0_r.
    + intros _. exists (n + 1)%Z. split; [reflexivity|].
      pose proof (Qfloor_resp_le _ _ H1) as F.
      change (Qfloor 1) with 1%Z in F.
      split; [lia|]. split; [lia|].
      pose proof (Qlt_floor (target / duration c)) as G.
      assert (G' : target / duration c < inject_Z (n + 1)).
      { apply Qlt_le_trans with (1 := G). rewrite <- Zle_Qle. lia. }
      apply (Qmult_lt_compat_r _ _ (duration c) Hd) in G'.
      rewrite (Qmult_comm (target / duration c)), Qmult_div_r in G'
        by exact Hnz.
      exact G'.
    + intros C. exfalso. exact (Qlt_not_le _ _ L C).
  - eexists. split; [reflexivity|].
    cbn [subclip w h x1 x2 y1 y2 duration t_start copies].
    assert (NL : ~ duration c < target)
      by (intros C; apply Qlt_bool_iff in C; congruence).
    repeat split; try reflexivity; try contradiction.
    + unfold Qminus. now rewrite Qplus_0_r.
    + now rewrite Qplus_0_r.
Qed.

(** What makes the last part fail, for a clip that is not longer than
    zero seconds or needs too many repetitions. *)
Lemma loop_trim_raises (c : clip) (target : Q) :
  0 <= duration c -> 0 < target ->
  (duration c == 0 -> loop_trim c target = Raise ZeroDivisionError)
  /\ (0 < duration c ->
      (exists c', loop_trim c target = Ok c')
      \/ loop_trim c target = Raise OverflowError).
Proof.
  intros Hd Ht. unfold loop_trim. split.
  - intros E.
    assert (L : Qlt_bool (duration c) target = true)
      by (apply Qlt_bool_iff; lra).
    apply Qeq_bool_iff in E. now rewrite L, E.
  - intros P.
    assert (E : Qeq_bool (duration c) 0 = false).
    { apply not_true_iff_false. intros C. apply Qeq_bool_iff in C. lra. }
    rewrite E. destruct (Qlt_bool (duration c) target).
    + destruct (int_round64 (target / duration c)) as [[n ->]| ->];
        [left; eexists; reflexivity|right; reflexivity].
    + left. eexists. reflexivity.
Qed.

Lemma prepare_background_unfold (source : clip) (target : Q) :
  _prepare_background source target
  = if (h source =? 0)%Z then Raise ZeroDivisionError
    else
      match resize (crop_9_16 source) output_width output_height with
      | Raise e => Raise e
      | Ok c => loop_trim c target
      end.
Proof. reflexivity. Qed.

(** The frame the crop leaves, for a source of the given size. *)
Lemma crop_9_16_frame (w0 h0 : Z) (native : Q) :
  (0 <= w0)%Z -> (0 < h0)%Z ->
  let c := crop_9_16 (VideoFileClip w0 h0 native) in
  duration c = native /\ copies c = 1%Z /\ t_start c = 0
  /\ ((9 * h0 < 16 * w0)%Z ->
      (x2 c - x1 c)%Z = int_of_float (inject_Z h0 * (9 / 16))
      /\ y1 c = 0%Z /\ y2 c = h0
      /\ (0 <= x1 c)%Z /\ (0 <= (w0 - x2 c) - x1 c <= 1)%Z
      /\ (0 <= 9 * (y2 c - y1 c) - 16 * (x2 c - x1 c) < 16)%Z
      /\ w c = (x2 c - x1 c)%Z /\ h c = h0)
  /\ ((16 * w0 <= 9 * h0)%Z ->
      (y2 c - y1 c)%Z = int_of_float (inject_Z w0 / (9 / 16))
      /\ x1 c = 0%Z /\ x2 c = w0
      /\ (0 <= y1 c)%Z /\ (0 <= (h0 - y2 c) - y1 c <= 1)%Z
      /\ (0 <= 16 * (x2 c - x1 c) - 9 * (y2 c - y1 c) < 9)%Z
      /\ w c = w0 /\ h c = (y2 c - y1 c)%Z).
Proof.
  intros Hw Hh. cbn zeta. unfold crop_9_16. cbn [VideoFileClip w h].
  fold (VideoFileClip w0 h0 native).
  pose proof (new_width_bounds h0 ltac:(lia)) as Bw.
  pose proof (new_height_bounds w0 Hw) as Bh. cbn zeta in Bw, Bh.
  destruct (Qlt_bool aspect_ratio (inject_Z w0 / inject_Z h0)) eqn:A.
  - pose proof (proj1 (aspect_wider w0 h0 Hh) A) as Hwide.
    destruct (crop_width_window w0 h0
                (int_of_float (inject_Z h0 * aspect_ratio)) native
                ltac:(lia) ltac:(lia) ltac:(lia))
      as (C1 & C2 & C3 & C4 & C5 & C6 & C7 & C8 & C9 & C10).
    cbn zeta in *.
    split; [exact C8|]. split; [exact C9|]. split; [exact C10|].
    split; [|intros C; lia].
    intros _. fold aspect_ratio. rewrite C1, C4, C5, C6, C7.
    repeat split; lia.
  - assert (Htall : (16 * w0 <= 9 * h0)%Z).
    { destruct (Z.lt_ge_cases (9 * h0) (16 * w0)) as [C|C]; [|exact C].
      apply (aspect_wider w0 h0 Hh) in C. congruence. }
    destruct (crop_height_window w0 h0
                (int_of_float (inject_Z w0 / aspect_ratio)) native
                Hw Hh ltac:(lia))
      as (C1 & C2 & C3 & C4 & C5 & C6 & C7 & C8 & C9 & C10).
    cbn zeta in *.
    split; [exact C8|]. split; [exact C9|]. split; [exact C10|].
    split; [intros C; lia|].
    intros _. fold aspect_ratio. rewrite C1, C4, C5, C6, C7.
    repeat split; lia.
Qed.

(** The cropped frame has no pixel exactly when the source is one pixel
    high or has no width; resizing then fails.  Otherwise the resized clip
    goes on to the looping and cutting. *)
Lemma prepare_background_frame (w0 h0 : Z) (native target : Q) :
  (0 <= w0)%Z -> (0 < h0)%Z ->
  let source := VideoFileClip w0 h0 native in
  (h0 = 1%Z \/ w0 = 0%Z ->
   _prepare_background source target = Raise ValueError)
  /\ ((2 <= h0)%Z -> (1 <= w0)%Z ->
      exists r,
        _prepare_background source target = loop_trim r target
        /\ w r = 1080%Z /\ h r = 1920%Z
        /\ duration r = native /\ copies r = 1%Z /\ t_start r = 0
        /\ x1 r = x1 (crop_9_16 source) /\ x2 r = x2 (crop_9_16 source)
        /\ y1 r = y1 (crop_9_16 source) /\ y2 r = y2 (crop_9_16 source)).
Proof.
  intros Hw Hh. cbn zeta. rewrite prepare_background_unfold.
  cbn [VideoFileClip h]. fold (VideoFileClip w0 h0 native).
  destruct (Z.eqb_spec h0 0) as [->|_]; [lia|].
  destruct (crop_9_16_frame w0 h0 native Hw Hh) as (D & C & T & Wide & Tall).
  cbn zeta in *.
  pose proof (new_width_bounds h0 ltac:(lia)) as Bw.
  pose proof (new_height_bounds w0 Hw) as Bh. cbn zeta in Bw, Bh.
  fold aspect_ratio in Wide, Tall.
  set (c := crop_9_16 (VideoFileClip w0 h0 native)) in *.
  assert (Hsize : (w c = 0%Z \/ h c = 0%Z) <-> (h0 = 1%Z \/ w0 = 0%Z)).
  { destruct (Z.lt_ge_cases (9 * h0) (16 * w0)) as [Wd|Tl].
    - destruct (Wide Wd) as (E1 & _ & _ & _ & _ & _ & E7 & E8).
      rewrite E7, E8, E1. lia.
    - destruct (Tall Tl) as (E1 & _ & _ & _ & _ & _ & E7 & E8).
      rewrite E7, E8, E1. lia. }
  unfold resize. split.
  - intros H. apply Hsize in H.
    destruct (Z.eqb_spec (w c) 0), (Z.eqb_spec (h c) 0); cbn [orb];
      try reflexivity. lia.
  - intros H2 H1.
    destruct (Z.eqb_spec (w c) 0) as [E|_];
      [assert (h0 = 1%Z \/ w0 = 0%Z) by (apply Hsize; now left); lia|].
    destruct (Z.eqb_spec (h c) 0) as [E|_];
      [assert (h0 = 1%Z \/ w0 = 0%Z) by (apply Hsize; now right); lia|].
    cbn [orb]. eexists. split; [reflexivity|].
    cbn [w h x1 x2 y1 y2 duration copies t_start].
    repeat split; assumption || reflexivity.
Qed.




End Background.

(** ** Retrying the summarisation call *)

(** The retry wrapper does repeat a call that raises: three attempts with
    two waits against an endpoint that is down, two attempts against one
    that recovers. *)
Lemma retry_repeats_a_raising_call :
  retry 3 (chat_create failing_service) fresh_world
  = (Raise RetryError, {| api_calls := 3; sleeps := [4; 4]%Z |})
  /\ retry 3 (chat_create flaky_service) fresh_world
     = (Ok (lit "{}"), {| api_calls := 2; sleeps := [4%Z] |}).
Proof. split; reflexivity. Qed.

(** C8, what the code does when the service call fails: the body of
    [generate_summary] turns the exception into a [None] result, the retry
    wrapper sees a normal return, and the call is made exactly once, with no
    wait and no second attempt. *)
Theorem generate_summary_not_retried
    (json_loads : str -> result content) (svc : service) (w : world) (e : exn) :
  svc (api_calls w) = Raise e ->
  generate_summary json_loads svc w
  = (Ok None, {| api_calls := S (api_calls w); sleeps := sleeps w |}).
Proof.
  intros H. unfold generate_summary, retry. cbn [Nat.sub retry_loop].
  unfold generate_summary_body, chat_create. now rewrite H.
Qed.

Lemma generate_summary_not_retried_witness :
  flaky_service (api_calls fresh_world) = Raise APIError
  /\ generate_summary (fun _ => Raise JSONDecodeError) flaky_service fresh_world
     = (Ok None, {| api_calls := 1; sleeps := [] |}).
Proof.
  split; [reflexivity|].
  apply (generate_summary_not_retried _ flaky_service fresh_world APIError).
  reflexivity.
Defined.

(** ** The text fallback of the video agent *)

Section Fallback.

Import Agents.









End Fallback.

(** * Further properties of the pipeline *)

(** ** Whitespace does not matter to [split] *)

Section SplitWhitespace.

Lemma split_all_space (b : str) : forallb isspace b = true -> split b = [].
Proof.
  induction b as [|c b IH]; [reflexivity|].
  cbn [forallb split]. intros H. apply andb_prop in H as [Hc Hb].
  rewrite Hc. now apply IH.
Qed.

Lemma split_app_ws_l (a s : str) :
  forallb isspace a = true -> split (a ++ s) = split s.
Proof.
  induction a as [|c a IH]; [reflexivity|].
  cbn [forallb]. intros H. apply andb_prop in H as [Hc Ha].
  change ((c :: a) ++ s) with (c :: (a ++ s)). cbn [split].
  rewrite Hc. now apply IH.
Qed.

(** What [split] does with one more leading character depends on the rest
    only through its emptiness, its first character and its words. *)
Lemma split_cons_congr (c : N) (x y : str) :
  (x = [] <-> y = []) -> leading_ws x = leading_ws y -> split x = split y ->
  split (c :: x) = split (c :: y).
Proof.
  intros He Hl Hs. cbn [split]. destruct (isspace c); [exact Hs|].
  destruct x as [|a x], y as [|b y]; try reflexivity.
  - destruct He as [He _]. now specialize (He eq_refl).
  - destruct He as [_ He]. now specialize (He eq_refl).
  - cbn [leading_ws] in Hl. rewrite Hl, Hs. reflexivity.
Qed.

Lemma split_app_ws_r (a b : str) :
  forallb isspace b = true -> split (a ++ b) = split a.
Proof.
  intros Hb. induction a as [|c a IH].
  - now apply split_all_space.
  - change ((c :: a) ++ b) with (c :: (a ++ b)).
    destruct a as [|d a'].
    + cbn [app split]. destruct (isspace c); [now apply split_all_space|].
      destruct b as [|e b']; [reflexivity|].
      cbn [forallb] in Hb. apply andb_prop in Hb as [He Hb'].
      rewrite He. cbn [split] in IH. cbn [app] in IH.
      rewrite (split_all_space (e :: b')); [reflexivity|].
      cbn [forallb]. now rewrite He, Hb'.
    + apply split_cons_congr; [split; discriminate| reflexivity | exact IH].
Qed.

Lemma lstrip_decomp (s : str) :
  exists a, s = a ++ lstrip s /\ forallb isspace a = true.
Proof.
  induction s as [|c t (a & Ha & Hw)]; [now exists []|].
  cbn [lstrip]. destruct (isspace c) eqn:E.
  - exists (c :: a). cbn [app forallb]. rewrite E, Hw, <- Ha. now split.
  - now exists [].
Qed.

Lemma rstrip_decomp (s : str) :
  exists b, s = rstrip s ++ b /\ forallb isspace b = true.
Proof.
  unfold rstrip. destruct (lstrip_decomp (rev s)) as (a & Ha & Hw).
  exists (rev a). split.
  - rewrite <- rev_app_distr, <- Ha. now rewrite rev_involutive.
  - rewrite forallb_forall in *. intros x Hx. apply Hw. now apply in_rev.
Qed.

Lemma split_strip (s : str) : split (strip s) = split s.
Proof.
  unfold strip.
  destruct (lstrip_decomp s) as (a & Ha & Hwa).
  destruct (rstrip_decomp (lstrip s)) as (b & Hb & Hwb).
  pose proof (split_app_ws_l a (lstrip s) Hwa) as H1. rewrite <- Ha in H1.
  pose proof (split_app_ws_r (rstrip (lstrip s)) b Hwb) as H2.
  rewrite <- Hb in H2. congruence.
Qed.

Lemma startswith_decomp (p s : str) :
  startswith p s = true -> s = p ++ skipn (length p) s.
Proof.
  revert s. induction p as [|a p IH]; intros [|b s] H; try reflexivity;
    try discriminate.
  cbn [startswith] in H. apply andb_prop in H as [H1 H2].
  apply N.eqb_eq in H1. subst b. cbn [length skipn app]. f_equal. now apply IH.
Qed.

(** Replacing a run of whitespace by a shorter, non-empty run of whitespace
    changes neither the words, nor whether the text starts with whitespace,
    nor whether it is empty. *)
Lemma replace_ws_split (o : N) (old' : str) (n0 : N) (new' : str) :
  forallb isspace (o :: old') = true ->
  forallb isspace (n0 :: new') = true ->
  forall n s, (length s <= n)%nat ->
    split (replace (o :: old') (n0 :: new') s) = split s
    /\ leading_ws (replace (o :: old') (n0 :: new') s) = leading_ws s
    /\ (replace (o :: old') (n0 :: new') s = [] <-> s = []).
Proof.
  intros Hold Hnew. induction n as [|n IH]; intros [|c t] Hs;
    cbn [length] in Hs; try lia; try (now repeat split).
  destruct (startswith (o :: old') (c :: t)) eqn:E.
  - rewrite replace_hit by exact E.
    pose proof (startswith_decomp _ _ E) as D. cbn [length skipn] in D.
    pose proof (startswith_length _ _ E) as L. cbn [length] in L.
    destruct (IH (skipn (length old') t)) as (I1 & _ & _).
    { rewrite length_skipn. lia. }
    split; [|split].
    + rewrite split_app_ws_l by exact Hnew. rewrite I1.
      pose proof (split_app_ws_l (o :: old') (skipn (length old') t) Hold)
        as H1.
      rewrite <- D in H1. now rewrite H1.
    + cbn [app leading_ws]. cbn [forallb] in Hnew, Hold.
      apply andb_prop in Hnew as [Hn _]. apply andb_prop in Hold as [Ho _].
      cbn [startswith] in E. apply andb_prop in E as [E _].
      apply N.eqb_eq in E. subst c. now rewrite Hn, Ho.
    + split; discriminate.
  - rewrite replace_miss by exact E.
    destruct (IH t ltac:(lia)) as (I1 & I2 & I3).
    split; [|split].
    + now apply split_cons_congr.
    + reflexivity.
    + split; discriminate.
Qed.

End SplitWhitespace.

(** ** Cleaning and extracting text *)

Section Extraction.

Import PDFProcessor.

Lemma length_lstrip (s : str) : (length (lstrip s) <= length s)%nat.
Proof.
  induction s as [|c t IH]; [reflexivity|].
  cbn [lstrip]. destruct (isspace c); cbn [length]; lia.
Qed.

Lemma length_strip (s : str) : (length (strip s) <= length s)%nat.
Proof.
  unfold strip, rstrip. rewrite length_rev.
  pose proof (length_lstrip (rev (lstrip s))) as H. rewrite length_rev in H.
  pose proof (length_lstrip s). lia.
Qed.

(** Everything the two loops and the final [strip] guarantee. *)
Lemma clean_text_spec (t : str) :
  exists r,
    _clean_text t = Some r
    /\ split r = split t
    /\ (length r <= length t)%nat
    /\ contains [32; 32]%N r = false
    /\ contains [10; 10; 10]%N r = false
    /\ leading_ws r = false
    /\ trailing_ws r = false.
Proof.
  unfold _clean_text. change (lit "  ") with [32; 32]%N.
  change (lit " ") with [32%N].
  destruct (replace_while_spec 10%N [10%N; 10%N] [10; 10]%N
              (fun s => split s = split t /\ (length s <= length t)%nat)
              ltac:(cbn; lia)) with (fuel := S (length t)) (s := t)
    as (t1 & E1 & N1 & W1 & L1); [|lia|now split|].
  { intros s [Hs Hl]. split.
    - rewrite <- Hs.
      apply (replace_ws_split 10%N [10; 10]%N 10%N [10%N]
               eq_refl eq_refl _ s (le_n _)).
    - pose proof (replace_length_le 10%N [10; 10]%N [10; 10]%N
                    ltac:(cbn; lia) _ s (le_n _)). lia. }
  rewrite E1.
  destruct (replace_while_spec 32%N [32%N] [32%N]
              (fun s => contains [10; 10; 10]%N s = false
                        /\ split s = split t /\ (length s <= length t)%nat)
              ltac:(cbn; lia)) with (fuel := S (length t1)) (s := t1)
    as (t2 & E2 & N2 & N3 & W2 & L2); [|lia|now repeat split|].
  { intros s (Hn & Hs & Hl). split; [|split].
    - now apply (replace_spaces_keeps_newline_runs _ s (le_n _)).
    - rewrite <- Hs.
      apply (replace_ws_split 32%N [32%N] 32%N [] eq_refl eq_refl _ s (le_n _)).
    - pose proof (replace_length_le 32%N [32%N] [32%N]
                    ltac:(cbn; lia) _ s (le_n _)). lia. }
  rewrite E2. exists (strip t2). split; [reflexivity|].
  split; [now rewrite split_strip|].
  split; [pose proof (length_strip t2); lia|].
  split; [now apply strip_contains|].
  split; [now apply strip_contains|].
  split; [apply strip_leading|apply strip_trailing].
Qed.

Lemma clean_text_fixed (t : str) :
  contains [32; 32]%N t = false -> contains [10; 10; 10]%N t = false ->
  leading_ws t = false -> trailing_ws t = false ->
  _clean_text t = Some t.
Proof.
  intros H1 H2 H3 H4. unfold _clean_text. change (lit "  ") with [32; 32]%N.
  change (lit " ") with [32%N].
  rewrite replace_while_fixed by exact H2.
  rewrite replace_while_fixed by exact H1.
  now rewrite strip_id.
Qed.

(** Captions and estimates see a script only through its words. *)
Lemma generate_captions_words (s1 s2 : str) (k : Z) :
  split s1 = split s2 -> generate_captions s1 k = generate_captions s2 k.
Proof.
  intros H. unfold generate_captions, caption_texts. now rewrite H.
Qed.

End Extraction.

(** X1: cleaning returns for every text, never lengthens it and leaves its
    words untouched, so that the captions and the estimated duration of the
    cleaned text are those of the raw text. *)
Theorem clean_text_keeps_words (t : str) :
  exists r,
    PDFProcessor._clean_text t = Some r
    /\ split r = split t
    /\ (length r <= length t)%nat
    /\ (forall k, generate_captions r k = generate_captions t k)
    /\ estimated_duration r = estimated_duration t.
Proof.
  destruct (clean_text_spec t) as (r & E & Hs & Hl & _).
  exists r. split; [exact E|]. split; [exact Hs|]. split; [exact Hl|]. split.
  - intros k. now apply generate_captions_words.
  - unfold estimated_duration. now rewrite Hs.
Qed.

(** X2: the texts that cleaning leaves unchanged are exactly those without
    two consecutive spaces, without three consecutive newlines and without
    whitespace at either end. *)
Theorem clean_text_fixed_points (t : str) :
  PDFProcessor._clean_text t = Some t
  <-> contains (lit "  ") t = false
      /\ contains [10; 10; 10]%N t = false
      /\ leading_ws t = false
      /\ trailing_ws t = false.
Proof.
  change (lit "  ") with [32; 32]%N. split.
  - intros E. destruct (clean_text_spec t) as (r & E' & _ & _ & H).
    rewrite E in E'. injection E' as <-. exact H.
  - intros (H1 & H2 & H3 & H4). now apply clean_text_fixed.
Qed.

Section ExtractText.

Import PDFProcessor.

Lemma split_join_ws (c : N) (sep' : str) (texts : list str) :
  forallb isspace (c :: sep') = true ->
  split (join (c :: sep') texts) = concat (map split texts).
Proof.
  intros H. cbn [forallb] in H. apply andb_prop in H as [Hc Hs].
  induction texts as [|p rest IH]; [reflexivity|].
  destruct rest as [|q rest'].
  - cbn [join map concat]. now rewrite app_nil_r.
  - change (join (c :: sep') (p :: q :: rest'))
      with (p ++ c :: (sep' ++ join (c :: sep') (q :: rest'))).
    rewrite split_app_sep by exact Hc.
    rewrite split_app_ws_l by exact Hs. now rewrite IH.
Qed.

Lemma split_nil_lstrip (s : str) : split s = [] -> lstrip s = [].
Proof.
  induction s as [|c t IH]; [reflexivity|].
  intros H. cbn [lstrip]. destruct (isspace c) eqn:E.
  - apply IH. cbn [split] in H. now rewrite E in H.
  - destruct (split_nonspace_cons c t E) as (w & ws & Hw). congruence.
Qed.

Lemma split_nil_strip (s : str) : split s = [] <-> strip s = [].
Proof.
  split; intros H.
  - unfold strip. now rewrite (split_nil_lstrip s H).
  - rewrite <- split_strip, H. reflexivity.
Qed.

Lemma in_list_singleton (x y : str) : in_list x [y] = true <-> x = y.
Proof.
  unfold in_list. cbn [existsb].
  destruct (list_eq_dec N.eq_dec x y); cbn; intuition congruence.
Qed.

End ExtractText.

(** X3: [extract_text] returns [None] exactly when the file is missing, is
    not named [.pdf], cannot be opened, or none of its first 50 pages gives
    a non-empty text; otherwise the text it returns is clean and its words
    are the words of those pages' texts, in page order, pages that fail or
    are empty being skipped and pages after the 50th ignored. *)
Theorem extract_text_spec (f : PDFProcessor.pdf_file) :
  (PDFProcessor.extract_text f = None
   <-> PDFProcessor.file_exists f = false
       \/ PDFProcessor.suffix_lower f <> lit ".pdf"
       \/ (exists e, PDFProcessor.opened f = Raise e)
       \/ (exists pages, PDFProcessor.opened f = Ok pages
             /\ PDFProcessor.page_texts (firstn 50 pages) = []))
  /\ (forall t, PDFProcessor.extract_text f = Some t ->
        exists pages,
          PDFProcessor.opened f = Ok pages
          /\ split t
             = concat (map split (PDFProcessor.page_texts (firstn 50 pages)))
          /\ PDFProcessor._clean_text t = Some t).
Proof.
  unfold PDFProcessor.extract_text.
  destruct (PDFProcessor.file_exists f) eqn:Ex; cbn [negb].
  2:{ split; [|discriminate]. split; auto. }
  destruct (in_list (PDFProcessor.suffix_lower f) [lit ".pdf"]) eqn:Sx;
    cbn [negb].
  2:{ split; [|discriminate]. split; [|reflexivity]. intros _. right. left.
      intros C. apply in_list_singleton in C. congruence. }
  apply in_list_singleton in Sx.
  destruct (PDFProcessor.opened f) as [pages|e] eqn:Op.
  2:{ split; [|discriminate]. split; [|reflexivity]. intros _.
      right. right. left. now exists e. }
  destruct pages as [|p0 rest].
  { split; [|discriminate]. split; [|reflexivity]. intros _.
    right. right. right. now exists []. }
  change PDFProcessor.max_pages with 50%nat.
  destruct (PDFProcessor.page_texts (firstn 50 (p0 :: rest))) as [|x xs] eqn:Pt.
  { split; [|discriminate]. split; [|reflexivity]. intros _.
    right. right. right. now exists (p0 :: rest). }
  destruct (clean_text_spec (join [10; 10]%N (x :: xs)))
    as (r & E & Hs & _ & H1 & H2 & H3 & H4).
  rewrite E. split.
  - split; [discriminate|].
    intros [C|[C|[[e C]|(pages & C & D)]]]; try discriminate; try contradiction.
    injection C as <-. rewrite Pt in D. discriminate.
  - intros t Ht. injection Ht as <-. exists (p0 :: rest).
    split; [reflexivity|]. split.
    + rewrite Hs, Pt. now apply split_join_ws.
    + now apply clean_text_fixed.
Qed.

(** X4: a file that [validate_pdf] accepts is at most 50 MB large, and
    [extract_text] on the same file returns a text with at least one
    word. *)
Theorem validate_then_extract (f : PDFProcessor.pdf_file)
    (m : PDFProcessor.validation) :
  PDFProcessor.validate_pdf f = (true, m) ->
  m = PDFProcessor.PDF_is_valid
  /\ (PDFProcessor.st_size f <= 50 * 1024 * 1024)%Z
  /\ exists t, PDFProcessor.extract_text f = Some t /\ split t <> [].
Proof.
  unfold PDFProcessor.validate_pdf, PDFProcessor.extract_text.
  destruct (PDFProcessor.file_exists f); cbn [negb]; [|discriminate].
  destruct (in_list (PDFProcessor.suffix_lower f) [lit ".pdf"]);
    cbn [negb]; [|discriminate].
  destruct (Qle_bool _ 50) eqn:Sz; cbn [negb]; [|discriminate].
  destruct (PDFProcessor.opened f) as [[|[[[|c t0]|]|e] rest]|e];
    try discriminate.
  destruct (length (strip (c :: t0)) <? 10)%nat eqn:Ln; [discriminate|].
  intros H. injection H as <-. split; [reflexivity|]. split.
  - apply Qle_bool_iff in Sz. unfold Qle in Sz. cbn in Sz. lia.
  - change PDFProcessor.max_pages with 50%nat.
    cbn [firstn PDFProcessor.page_texts].
    destruct (clean_text_spec
                (join [10; 10]%N
                   ((c :: t0) :: PDFProcessor.page_texts (firstn 49 rest))))
      as (r & E & Hs & _).
    exists r. split; [exact E|].
    rewrite Hs, (split_join_ws 10%N [10%N]) by reflexivity.
    cbn [map concat]. intros C. apply app_eq_nil in C as [C _].
    apply split_nil_strip in C. rewrite C in Ln. discriminate Ln.
Qed.

Lemma validate_then_extract_witness :
  let f := PDFProcessor.mk_pdf_file true (lit ".pdf") 4096
             (Ok [Ok (Some (lit "  A study of   captions  ")); Raise APIError]) in
  PDFProcessor.validate_pdf f = (true, PDFProcessor.PDF_is_valid)
  /\ PDFProcessor.extract_text f = Some (lit "A study of captions").
Proof.
  cbn zeta. split; [reflexivity|].
  destruct (validate_then_extract
              (PDFProcessor.mk_pdf_file true (lit ".pdf") 4096
                 (Ok [Ok (Some (lit "  A study of   captions  "));
                      Raise APIError]))
              PDFProcessor.PDF_is_valid eq_refl) as (_ & _ & t & E & _).
  vm_compute. reflexivity.
Defined.

(** ** Voice generation *)

Section Voice.

Import VoiceGenerator.

Lemma in_list_In (x : str) (l : list str) : in_list x l = true <-> In x l.
Proof.
  unfold in_list. rewrite existsb_exists. split.
  - intros (y & Hy & E). destruct (list_eq_dec N.eq_dec x y); [now subst|].
    discriminate.
  - intros H. exists x. split; [exact H|].
    destruct (list_eq_dec N.eq_dec x x); [reflexivity|contradiction].
Qed.

Lemma timed_nil (t : Q) (texts : list str) : timed t texts = [] -> texts = [].
Proof. destruct texts; [reflexivity|discriminate]. Qed.

(** A script with a word has a caption, whatever the segment size. *)
Lemma generate_captions_nonempty (script : str) (k : Z) :
  split script <> [] -> generate_captions script k <> [].
Proof.
  intros H C. rewrite generate_captions_timed in C. apply timed_nil in C.
  destruct (Z.lt_ge_cases 0 k) as [Hk|Hk].
  - destruct (caption_texts_pos script k Hk) as (full & rest & E & _ & _ & D).
    rewrite <- E, C in D. now apply H.
  - rewrite caption_texts_nonpos in C by lia. contradiction.
Qed.

Lemma estimated_duration_pos (script : str) :
  split script <> [] -> 0 < estimated_duration script.
Proof.
  intros H. unfold estimated_duration, Qlt. cbn.
  destruct (split script); [contradiction|]. cbn [length]. lia.
Qed.

(** The speed of the request. *)
Lemma clamp_bounds (speed : PyFloat.float) :
  let clamped :=
    if PyFloat.lt speed (PyFloat.Finite (1 # 4))
       || PyFloat.lt (PyFloat.Finite 4) speed
    then py_max (PyFloat.Finite (1 # 4)) (py_min (PyFloat.Finite 4) speed)
    else speed in
  (speed = PyFloat.NaN -> clamped = PyFloat.NaN)
  /\ (speed <> PyFloat.NaN ->
      exists q, clamped = PyFloat.Finite q /\ 1 # 4 <= q /\ q <= 4)
  /\ (forall q, speed = PyFloat.Finite q -> 1 # 4 <= q -> q <= 4 ->
      clamped = speed).
Proof.
  cbn zeta. destruct speed as [q|[|]|].
  - unfold py_max, py_min, PyFloat.lt.
    destruct (Qle_bool (1 # 4) q) eqn:A; destruct (Qle_bool q 4) eqn:B;
      destruct (Qle_bool 4 q) eqn:C; cbn [negb orb];
      try change (Qle_bool 4 (1 # 4)) with false; cbn [negb];
      destruct (Qle_bool q (1 # 4)) eqn:D; cbn [negb];
      repeat match goal with
             | H : Qle_bool _ _ = true |- _ => apply Qle_bool_iff in H
             | H : Qle_bool ?a ?b = false |- _ =>
                 assert (~ a <= b)
                   by (intros X; apply Qle_bool_iff in X; congruence);
                 clear H
             end;
      (split; [discriminate|]); split;
      try (intros _; eexists; split; [reflexivity|]; split; lra);
      try (intros q' E Q1 Q2; injection E as <-; try reflexivity;
           exfalso; lra).
  - cbn. split; [discriminate|]. split; [|discriminate].
    intros _. exists (1 # 4). split; [reflexivity|]. split; lra.
  - cbn. split; [discriminate|]. split; [|discriminate].
    intros _. exists 4. split; [reflexivity|]. split; lra.
  - cbn. split; [reflexivity|]. split; [contradiction|discriminate].
Qed.

End Voice.

(** X5: [validate_text_length] accepts a text exactly when it has at least
    one word and, for the openai service, at most 4096 characters; an
    accepted text always gets at least one caption and a positive estimated
    duration. *)
Theorem validate_text_length_spec (service text : str) :
  (fst (VoiceGenerator.validate_text_length service text) = true
   <-> split text <> []
       /\ (service = lit "openai" -> (length text <= 4096)%nat))
  /\ (fst (VoiceGenerator.validate_text_length service text) = true ->
      (forall k, generate_captions text k <> [])
      /\ 0 < estimated_duration text).
Proof.
  assert (H : fst (VoiceGenerator.validate_text_length service text) = true
              <-> split text <> []
                  /\ (service = lit "openai" -> (length text <= 4096)%nat)).
  { unfold VoiceGenerator.validate_text_length.
    destruct (length text =? 0)%nat eqn:L0; cbn [orb].
    { apply Nat.eqb_eq in L0. destruct text; [|discriminate].
      cbn. split; [discriminate|]. now intros [C _]. }
    destruct (length (strip text) =? 0)%nat eqn:L1.
    { apply Nat.eqb_eq, length_zero_iff_nil in L1.
      apply split_nil_strip in L1. cbn. split; [discriminate|].
      now intros [C _]. }
    assert (Hw : split text <> []).
    { intros C. apply split_nil_strip in C. rewrite C in L1. discriminate. }
    destruct (in_list service [lit "openai"]) eqn:Sv; cbn [andb].
    - apply in_list_singleton in Sv.
      destruct (4096 <? length text)%nat eqn:L2; cbn [fst].
      + apply Nat.ltb_lt in L2. split; [discriminate|].
        intros [_ C]. specialize (C Sv). lia.
      + apply Nat.ltb_ge in L2. split; [|reflexivity]. intros _. now split.
    - cbn [fst]. split; [|reflexivity]. intros _. split; [exact Hw|].
      intros C. apply in_list_singleton in C. congruence. }
  split; [exact H|]. intros V. apply H in V as [Hw _]. split.
  - intros k. now apply generate_captions_nonempty.
  - now apply estimated_duration_pos.
Qed.

(** X6: whatever the endpoint does, [_generate_openai] sends exactly one
    request, for the text it was given and with one of the six valid
    voices.  A speed that is a number (the infinities included) is sent as a
    finite speed between 0.25 and 4.0, unchanged when it already lies in
    that range; a NaN speed passes the range test and is sent as it is.  A
    valid voice is sent unchanged, and every voice listed by
    [get_voice_options] is a valid one. *)
Theorem generate_openai_request
    (speech_create : VoiceGenerator.speech_request -> result unit)
    (stream_to_file : str -> result unit) (path_str : str -> str)
    (temp_path text : str) (output_path : option str) (voice : str)
    (speed : PyFloat.float) :
  (exists r,
      fst (VoiceGenerator._generate_openai speech_create stream_to_file
             path_str temp_path text output_path voice speed) = [r]
      /\ VoiceGenerator.req_input r = text
      /\ (speed = PyFloat.NaN -> VoiceGenerator.req_speed r = PyFloat.NaN)
      /\ (speed <> PyFloat.NaN ->
          exists q, VoiceGenerator.req_speed r = PyFloat.Finite q
                    /\ 1 # 4 <= q /\ q <= 4)
      /\ (forall q, speed = PyFloat.Finite q -> 1 # 4 <= q -> q <= 4 ->
          VoiceGenerator.req_speed r = speed)
      /\ In (VoiceGenerator.req_voice r) VoiceGenerator.valid_voices
      /\ (In voice VoiceGenerator.valid_voices ->
          VoiceGenerator.req_voice r = voice))
  /\ (forall name description,
        In (name, description) (VoiceGenerator.get_voice_options (lit "openai")) ->
        In name VoiceGenerator.valid_voices).
Proof.
  split.
  - unfold VoiceGenerator._generate_openai.
    pose proof (clamp_bounds speed) as (C1 & C2 & C3). cbn zeta in *.
    set (clamped :=
           if PyFloat.lt speed (PyFloat.Finite (1 # 4))
              || PyFloat.lt (PyFloat.Finite 4) speed
           then VoiceGenerator.py_max (PyFloat.Finite (1 # 4))
                  (VoiceGenerator.py_min (PyFloat.Finite 4) speed)
           else speed) in *.
    set (v := if in_list voice VoiceGenerator.valid_voices then voice
              else lit "nova").
    assert (Hv : In v VoiceGenerator.valid_voices
                 /\ (In voice VoiceGenerator.valid_voices -> v = voice)).
    { unfold v. destruct (in_list voice VoiceGenerator.valid_voices) eqn:E.
      - apply in_list_In in E. auto.
      - split; [cbn; auto 10|]. intros C. apply in_list_In in C. congruence. }
    exists (VoiceGenerator.mk_speech_request (lit "tts-1-hd") v text clamped).
    split.
    + destruct (speech_create _); [|reflexivity].
      destruct (stream_to_file _); reflexivity.
    + destruct Hv as [Hv1 Hv2].
      cbn [VoiceGenerator.req_input VoiceGenerator.req_speed
           VoiceGenerator.req_voice].
      split; [reflexivity|]. split; [exact C1|]. split; [exact C2|].
      split; [exact C3|]. split; [exact Hv1|exact Hv2].
  - intros name description H. cbn in H |- *.
    repeat (destruct H as [H|H]; [injection H as <- _; auto 10|]).
    contradiction.
Qed.

(** X7: [estimate_duration] raises [ZeroDivisionError] at speed 0; for a
    speed the voice service accepts (0.25 to 4.0) it returns, up to the
    three roundings of its float operations, the 150-words-a-minute
    estimate divided by the speed: a value within a factor
    (1 -/+ 2^-53)^3 of n / 150 * 60 / speed. *)
Theorem estimate_duration_speed (text : str) (speed : Q) :
  let exact := inject_Z (Z.of_nat (length (split text))) / 150 * 60 in
  (speed == 0 ->
   VoiceGenerator.estimate_duration text speed = Raise ZeroDivisionError)
  /\ (1 # 4 <= speed -> speed <= 4 ->
      exists q,
        VoiceGenerator.estimate_duration text speed = Ok q
        /\ (1 - PyFloat.unit_roundoff) ^ 3 * (exact / speed) <= q
        /\ q <= (1 + PyFloat.unit_roundoff) ^ 3 * (exact / speed)).
Proof.
  cbn zeta. split.
  - intros H. unfold VoiceGenerator.estimate_duration.
    apply Qeq_bool_iff in H. now rewrite H.
  - intros S1 S2.
    destruct (estimated_rel text) as (E1 & E2 & _). cbn zeta in E1, E2.
    unfold VoiceGenerator.estimate_duration.
    fold (Binary64.estimated_duration PyFloat.fl text).
    destruct (Qeq_bool speed 0) eqn:Z;
      [apply Qeq_bool_iff in Z; exfalso; lra|clear Z].
    eexists. split; [reflexivity|].
    change ((1 - PyFloat.unit_roundoff) ^ 3)
      with ((1 - (1 # 9007199254740992)) * (1 - (1 # 9007199254740992))
            * (1 - (1 # 9007199254740992))).
    change ((1 + PyFloat.unit_roundoff) ^ 3)
      with ((1 + (1 # 9007199254740992)) * (1 + (1 # 9007199254740992))
            * (1 + (1 # 9007199254740992))).
    change ((1 - PyFloat.unit_roundoff) ^ 2)
      with ((1 - (1 # 9007199254740992)) * (1 - (1 # 9007199254740992)))
      in E1.
    change ((1 + PyFloat.unit_roundoff) ^ 2)
      with ((1 + (1 # 9007199254740992)) * (1 + (1 # 9007199254740992)))
      in E2.
    assert (Hi : 1 # 4 <= / speed /\ / speed <= 4).
    { split.
      - apply Qle_shift_inv_l; lra.
      - apply Qle_shift_inv_r; lra. }
    unfold Qdiv. revert Hi. generalize (/ speed). intros i [I1 I2].
    destruct (length (split text)) as [|n] eqn:L.
    { assert (B : Binary64.estimated_duration PyFloat.fl text == 0).
      { unfold Binary64.estimated_duration. rewrite L. vm_compute.
        reflexivity. }
      assert (F : Binary64.estimated_duration PyFloat.fl text * i == 0)
        by (rewrite B; ring).
      rewrite (fl_zero _ F). change (inject_Z (Z.of_nat 0)) with 0.
      split; lra. }
    assert (N : 1 <= inject_Z (Z.of_nat (S n))).
    { change 1 with (inject_Z 1). rewrite <- Zle_Qle. lia. }
    revert N E1 E2. generalize (inject_Z (Z.of_nat (S n))).
    generalize (Binary64.estimated_duration PyFloat.fl text).
    intros base m N E1 E2. unfold Qdiv in E1, E2.
    change (/ 150) with (1 # 150) in E1, E2 |- *.
    assert (Hb : 1 # 4 <= base) by lra.
    assert (P1 : (1 # 4) * i <= base * i)
      by (apply Qmult_le_compat_r; lra).
    assert (H : 2 ^ (-1022) <= base * i).
    { apply Qle_trans with (1 # 16); [vm_compute; discriminate|]. lra. }
    destruct (fl_rel _ H) as [A1 A2]. unfold PyFloat.unit_roundoff in A1, A2.
    apply (fun K => Qmult_le_compat_r _ _ i K ltac:(lra)) in E1, E2.
    revert A1 A2. generalize (PyFloat.fl (base * i)). intros q A1 A2.
    split; lra.
Qed.

(** ** Summaries and word budgets *)

(** X8: whatever the endpoint and the JSON parser do, [generate_summary]
    returns normally after exactly one call and no wait; it returns a
    content only if the call answered, the answer parsed, and the parsed
    object has both a title and a script. *)
Theorem generate_summary_total
    (json_loads : str -> result content) (svc : service) (w : world) :
  exists r,
    generate_summary json_loads svc w
    = (Ok r, {| api_calls := S (api_calls w); sleeps := sleeps w |})
    /\ (forall c, r = Some c ->
          exists reply,
            svc (api_calls w) = Ok reply
            /\ json_loads reply = Ok c
            /\ title c <> None /\ script_field c <> None).
Proof.
  unfold generate_summary, retry. cbn [Nat.sub retry_loop].
  unfold generate_summary_body, chat_create.
  destruct (svc (api_calls w)) as [reply|e].
  - destruct (json_loads reply) as [c|e] eqn:J.
    + destruct (title c) eqn:T, (script_field c) eqn:S';
        eexists; (split; [reflexivity|]); intros c' H; try discriminate.
      injection H as <-. exists reply. rewrite T, S'.
      repeat split; congruence.
    + eexists. split; [reflexivity|]. discriminate.
  - eexists. split; [reflexivity|]. discriminate.
Qed.

(** X9: for a [max_duration] of up to 2^31 seconds, the word budget
    [generate_summary] asks the model for is [2.5 * max_duration] rounded
    down, or one word less when the float product falls just short of a
    whole number: never more words than 150 words a minute fit into
    [max_duration], and at most one word fewer than the largest such
    number. *)
Theorem summary_target_words_fits (max_duration : Z) :
  (0 <= max_duration <= 2 ^ 31)%Z ->
  exists target_words,
    summary_target_words max_duration = Ok target_words
    /\ (5 * max_duration - 2 <= 2 * target_words <= 5 * max_duration)%Z.
Proof.
  intros Hm. unfold summary_target_words.
  destruct (Z.eq_dec max_duration 0) as [->|Hz].
  { exists 0%Z. split; [vm_compute; reflexivity|lia]. }
  assert (M1 : 1 <= inject_Z max_duration).
  { change 1 with (inject_Z 1). rewrite <- Zle_Qle. lia. }
  assert (M2 : inject_Z max_duration <= 2147483648).
  { change 2147483648 with (inject_Z (2 ^ 31)). rewrite <- Zle_Qle. lia. }
  assert (H1 : 2 ^ (-1022) <= inject_Z max_duration / 60).
  { apply Qle_trans with (1 # 60); [vm_compute; discriminate|].
    apply Qle_shift_div_l; [reflexivity|]. lra. }
  destruct (fl_rel _ H1) as [A1 A2].
  assert (Em : inject_Z max_duration / 60 == inject_Z max_duration * (1 # 60))
    by (field; discriminate).
  rewrite Em in A1 at 1. rewrite Em in A2 at 2.
  unfold PyFloat.unit_roundoff in A1, A2.
  revert A1 A2. generalize (PyFloat.fl (inject_Z max_duration / 60)).
  intros x1 A1 A2.
  assert (H2 : 2 ^ (-1022) <= x1 * 150).
  { apply Qle_trans with 1; [vm_compute; discriminate|]. lra. }
  destruct (fl_rel _ H2) as [B1 B2].
  unfold PyFloat.unit_roundoff in B1, B2.
  unfold PyFloat.round64.
  revert B1 B2. generalize (PyFloat.fl (x1 * 150)). intros r B1 B2.
  assert (R0 : 0 <= r) by lra.
  assert (R1 : r <= 8589934592) by lra.
  assert (M : Qle_bool (Qabs r) PyFloat.max_float = true).
  { apply Qle_bool_iff. rewrite (Qabs_pos _ R0).
    apply Qle_trans with (1 := R1). vm_compute. discriminate. }
  rewrite M. cbn [PyFloat.int]. eexists. split; [reflexivity|].
  rewrite (int_of_float_floor r R0).
  pose proof (Qfloor_le r) as F1. pose proof (Qlt_floor r) as F2.
  rewrite inject_Z_plus in F2. change (inject_Z 1) with 1 in F2.
  assert (U : inject_Z (2 * Qfloor r) < inject_Z (5 * max_duration + 1)).
  { rewrite inject_Z_mult, inject_Z_plus, inject_Z_mult.
    change (inject_Z 2) with 2. change (inject_Z 5) with 5.
    change (inject_Z 1) with 1. lra. }
  assert (L : inject_Z (5 * max_duration - 3) < inject_Z (2 * Qfloor r)).
  { rewrite inject_Z_mult. unfold Z.sub.
    rewrite inject_Z_plus, inject_Z_mult.
    change (inject_Z 2) with 2. change (inject_Z 5) with 5.
    change (inject_Z (- (3))) with (- (3)). lra. }
  rewrite <- Zlt_Qlt in U, L. lia.
Qed.

Lemma summary_target_words_fits_witness :
  (0 <= 22 <= 2 ^ 31)%Z
  /\ exists target_words,
       summary_target_words 22 = Ok target_words
       /\ (5 * 22 - 2 <= 2 * target_words <= 5 * 22)%Z.
Proof.
  split; [lia|]. apply (summary_target_words_fits 22). lia.
Defined.

(** ** Captions of an optimised script *)

Section CaptionTrack.

Lemma caption_words (script : str) (k : Z) :
  concat (map split (caption_texts script k)) = split script.
Proof.
  destruct (Z.lt_ge_cases 0 k) as [Hk|Hk].
  - destruct (caption_texts_pos script k Hk) as (full & rest & -> & _ & _ & H).
    exact H.
  - rewrite caption_texts_nonpos by lia.
    apply concat_map_split_words, split_all_words.
Qed.

(** The words of the [i]-th of a run of lists of [k] elements, the last
    of which may be shorter. *)
Lemma concat_window {A} (k : nat) (full rest : list (list A)) :
  Forall (fun x => length x = k) full ->
  (rest = [] \/ exists r, rest = [r] /\ (length r <= k)%nat) ->
  forall i l,
    nth_error (full ++ rest) i = Some l ->
    l = firstn k (skipn (i * k) (concat (full ++ rest))).
Proof.
  intros Hfull Hrest. induction Hfull as [|x full' Hx _ IH]; intros i l H.
  - cbn [app] in *. destruct Hrest as [->|(r & -> & Hr)].
    + destruct i; discriminate.
    + destruct i as [|i]; [|destruct i; discriminate].
      cbn in H. injection H as <-. cbn. rewrite app_nil_r.
      now rewrite firstn_all2.
  - destruct i as [|i].
    + cbn in H. injection H as <-. cbn [app concat Nat.mul skipn].
      rewrite firstn_app, Hx, Nat.sub_diag, firstn_all2 by lia.
      cbn. now rewrite app_nil_r.
    + cbn [app nth_error] in H. rewrite (IH i l H).
      cbn [app concat]. f_equal.
      rewrite skipn_app.
      replace (skipn (S i * k) x) with (@nil A)
        by (symmetry; apply skipn_all2; cbn; lia).
      cbn [app]. f_equal. cbn. lia.
Qed.

(** Every caption text is its words joined by single spaces. *)
Lemma group_fold_joined (k : Z) (words : list str) :
  Forall (fun w => wordb w = true) words ->
  forall caps cur,
    Forall (fun c => join (lit " ") (split c) = c) caps ->
    Forall (fun w => wordb w = true) cur ->
    Forall (fun c => join (lit " ") (split c) = c)
      (fst (fold_left (group_step k) words (caps, cur)))
    /\ Forall (fun w => wordb w = true)
         (snd (fold_left (group_step k) words (caps, cur))).
Proof.
  induction 1 as [|w words Hw _ IH]; intros caps cur Hcaps Hcur.
  - now split.
  - cbn [fold_left group_step].
    assert (Hcur' : Forall (fun w => wordb w = true) (cur ++ [w])).
    { apply Forall_app. split; [exact Hcur|]. now constructor. }
    destruct (Z.of_nat (length (cur ++ [w])) >=? k)%Z.
    + apply IH; [|constructor]. apply Forall_app. split; [exact Hcaps|].
      constructor; [|constructor]. now rewrite split_join_words.
    + now apply IH.
Qed.

Lemma caption_texts_joined (script : str) (k : Z) :
  Forall (fun c => join (lit " ") (split c) = c) (caption_texts script k).
Proof.
  unfold caption_texts.
  destruct (group_fold_joined k (split script) (split_all_words script) [] [])
    as [H1 H2]; [constructor|constructor|].
  destruct (fold_left (group_step k) (split script) ([], []))
    as [caps [|u us]]; cbn [fst snd] in *; [exact H1|].
  apply Forall_app. split; [exact H1|].
  constructor; [|constructor]. now rewrite split_join_words.
Qed.

Lemma length_concat_full (k : Z) (full : list str) :
  Forall (fun c => Z.of_nat (word_count c) = k) full ->
  Z.of_nat (length (concat (map split full)))
  = (Z.of_nat (length full) * k)%Z.
Proof.
  induction 1 as [|x rest Hx _ IH]; [reflexivity|].
  cbn [map concat length]. rewrite length_app, Nat2Z.inj_add, IH.
  unfold word_count in Hx. lia.
Qed.

End CaptionTrack.

(** X10: for a platform of the table and every segment size, the captions
    generated from the optimised script carry exactly the words of that
    script, at most one word (the ellipsis marker) above the platform's
    budget of [floor(optimal_duration / 60 * 150)] words. *)
Theorem optimized_captions_words (script platform : str) (lim : limits) (k : Z) :
  dict_get platform platform_limits = Some lim ->
  let caps := generate_captions (optimize_for_platform script platform) k in
  concat (map (fun c => split (text c)) caps)
  = split (optimize_for_platform script platform)
  /\ (length (concat (map (fun c => split (text c)) caps))
      <= Z.to_nat (Qfloor (inject_Z (optimal_duration lim) / 60 * 150)) + 1)%nat.
Proof.
  intros Hget. cbn zeta.
  assert (E : concat (map (fun c => split (text c))
                        (generate_captions
                           (optimize_for_platform script platform) k))
              = split (optimize_for_platform script platform)).
  { rewrite generate_captions_timed, <- (map_map text split), timed_text.
    apply caption_words. }
  split; [exact E|]. rewrite E. now apply optimize_word_budget.
Qed.

Lemma optimized_captions_words_witness :
  dict_get (lit "instagram") platform_limits = Some (mk_limits 90 30)
  /\ (length (concat (map (fun c => split (text c))
                        (generate_captions
                           (optimize_for_platform script_76_words
                              (lit "instagram")) 5)))
      <= 75 + 1)%nat.
Proof.
  split; [reflexivity|].
  exact (proj2 (optimized_captions_words script_76_words (lit "instagram")
                  (mk_limits 90 30) 5 eq_refl)).
Defined.

(** X11: optimising twice is optimising once, for every script and every
    platform name. *)
Theorem optimize_for_platform_idempotent (script platform : str) :
  optimize_for_platform (optimize_for_platform script platform) platform
  = optimize_for_platform script platform.
Proof.
  destruct (dict_get platform platform_limits) as [lim|] eqn:Hget.
  2:{ unfold optimize_for_platform. now rewrite Hget. }
  destruct (Qlt_le_dec (inject_Z (optimal_duration lim))
              (estimated_duration script)) as [H|H].
  - destruct (optimize_over_budget _ _ _ Hget H) as (He & Hn & Hfit).
    assert (Hup : (5 * optimal_duration lim
                   < 2 * Z.of_nat (Z.to_nat (Qfloor
                       (inject_Z (optimal_duration lim) / 60 * 150))) + 2)%Z).
    { destruct (platform_limits_cases _ _ Hget) as [[_ ->]|[[_ ->]|[_ ->]]];
        vm_compute; reflexivity. }
    cbn zeta in *.
    set (T := Z.to_nat (Qfloor (inject_Z (optimal_duration lim) / 60 * 150)))
      in *.
    assert (Hs : split (optimize_for_platform script platform)
                 = firstn T (split script) ++ [lit "..."]).
    { rewrite He. apply split_join_words, truncated_words. }
    assert (Hlen : length (firstn T (split script)) = T).
    { rewrite length_firstn. lia. }
    assert (H2 : inject_Z (optimal_duration lim)
                 < estimated_duration (optimize_for_platform script platform)).
    { apply Qnot_le_lt. intros C.
      apply Qle_bool_iff, estimated_duration_le in C.
      rewrite Hs, length_app, Hlen in C. cbn [length] in C. lia. }
    destruct (optimize_over_budget _ platform lim Hget H2) as (He2 & _ & _).
    cbn zeta in He2. fold T in He2.
    rewrite He2, Hs, firstn_app, Hlen, Nat.sub_diag. cbn [firstn].
    rewrite app_nil_r, firstn_firstn, Nat.min_id. now rewrite He.
  - assert (E : optimize_for_platform script platform = script).
    { apply Qle_bool_iff in H. unfold optimize_for_platform.
      now rewrite Hget, H. }
    now rewrite !E.
Qed.

(** X12: for a positive segment size [k], a script of [n] words gets
    [ceil(n / k)] captions. *)
Theorem generate_captions_count (script : str) (k : Z) :
  (0 < k)%Z ->
  Z.of_nat (length (generate_captions script k))
  = ((Z.of_nat (length (split script)) + k - 1) / k)%Z.
Proof.
  intros Hk. rewrite generate_captions_timed.
  rewrite <- (length_map text), timed_text.
  destruct (caption_texts_pos script k Hk)
    as (full & rest & -> & Hfull & Hrest & Hcat).
  rewrite <- Hcat, map_app, concat_app, !length_app, !Nat2Z.inj_add.
  rewrite (length_concat_full k full Hfull).
  destruct Hrest as [->|(l & -> & H1 & H2)]; cbn [map concat length].
  - apply Z.div_unique with (r := (k - 1)%Z); lia.
  - rewrite app_nil_r. unfold word_count in *.
    apply Z.div_unique with (r := (Z.of_nat (length (split l)) - 1)%Z); lia.
Qed.

Lemma generate_captions_count_witness :
  (0 < 5)%Z
  /\ Z.of_nat (length (generate_captions
                         (lit "the quick brown fox jumps over the lazy dog") 5))
     = ((Z.of_nat (length
           (split (lit "the quick brown fox jumps over the lazy dog")))
         + 5 - 1) / 5)%Z.
Proof.
  split; [lia|].
  apply (generate_captions_count
           (lit "the quick brown fox jumps over the lazy dog") 5).
  lia.
Defined.

(** X13: for a positive segment size [k], caption number [i] (from 0)
    is made of the words [i * k] to [(i + 1) * k - 1] of the script, as far
    as there are any, joined by single spaces. *)
Theorem generate_captions_window (script : str) (k : Z) (i : nat) (c : caption) :
  (0 < k)%Z ->
  nth_error (generate_captions script k) i = Some c ->
  split (text c)
  = firstn (Z.to_nat k) (skipn (i * Z.to_nat k) (split script))
  /\ text c = join (lit " ") (split (text c)).
Proof.
  intros Hk Hc. rewrite generate_captions_timed in Hc.
  apply nth_error_timed_text in Hc.
  split.
  - destruct (caption_texts_pos script k Hk)
      as (full & rest & E & Hfull & Hrest & Hcat).
    rewrite E in Hc. rewrite <- Hcat, map_app.
    apply (concat_window (Z.to_nat k) (map split full) (map split rest)).
    + apply Forall_map. eapply Forall_impl; [|exact Hfull].
      cbn. unfold word_count. intros x Hx. lia.
    + destruct Hrest as [->|(l & -> & _ & Hl)]; [now left|right].
      exists (split l). split; [reflexivity|]. unfold word_count in Hl. lia.
    + rewrite <- map_app, nth_error_map, Hc. reflexivity.
  - pose proof (caption_texts_joined script k) as J.
    rewrite Forall_forall in J. symmetry. apply J.
    eapply nth_error_In. exact Hc.
Qed.

Lemma generate_captions_window_witness :
  (0 < 2)%Z
  /\ exists c,
       nth_error (generate_captions (lit "a b c d e") 2) 1 = Some c
       /\ split (text c)
          = firstn (Z.to_nat 2) (skipn (1 * Z.to_nat 2) (split (lit "a b c d e")))
       /\ text c = join (lit " ") (split (text c)).
Proof.
  split; [lia|].
  destruct (nth_error (generate_captions (lit "a b c d e") 2) 1)
    as [c|] eqn:E; [|vm_compute in E; discriminate E].
  exists c. split; [reflexivity|].
  apply (generate_captions_window (lit "a b c d e") 2 1 c); [lia|exact E].
Defined.

(** ** Background preparation: edge cases *)

Section BackgroundEdges.

Import VideoAssembler.

(** X14: for a source of positive width whose height and duration are not
    negative, and a positive target duration, [_prepare_background] raises
    [ZeroDivisionError] exactly when the height is 0, or the height is at
    least 2 and the duration is 0; it raises [ValueError] exactly when the
    source is one pixel high, the cropped frame then having no pixel; and it
    returns a clip in every other case that needs fewer than 2^52
    repetitions. *)
Theorem prepare_background_raises (w0 h0 : Z) (native target : Q) :
  (0 < w0)%Z -> (0 <= h0)%Z -> 0 <= native -> 0 < target ->
  let outcome := _prepare_background (VideoFileClip w0 h0 native) target in
  (outcome = Raise ZeroDivisionError
   <-> h0 = 0%Z \/ ((2 <= h0)%Z /\ native == 0))
  /\ (outcome = Raise ValueError <-> h0 = 1%Z)
  /\ ((2 <= h0)%Z -> 0 < native ->
      target / native < inject_Z (2 ^ 52) ->
      exists c, outcome = Ok c).
Proof.
  intros Hw Hh Hn Ht. cbn zeta.
  destruct (Z.eq_dec h0 0) as [->|Hh0].
  { rewrite prepare_background_unfold. cbn [VideoFileClip h Z.eqb].
    split; [|split].
    - split; [now left|reflexivity].
    - split; [discriminate|lia].
    - lia. }
  destruct (prepare_background_frame w0 h0 native target
              ltac:(lia) ltac:(lia)) as [Hempty Hframe]. cbn zeta in *.
  destruct (Z.eq_dec h0 1) as [H1|H1].
  - rewrite Hempty by now left. split; [|split].
    + split; [discriminate|]. intros [C|C]; lia.
    + split; [intros _; exact H1|reflexivity].
    + lia.
  - destruct (Hframe ltac:(lia) ltac:(lia))
      as (r & -> & _ & _ & R3 & _).
    destruct (loop_trim_raises r target) as [Z P];
      [now rewrite R3|exact Ht|]. rewrite R3 in *.
    split; [|split].
    + split.
      * intros E. right. split; [lia|].
        destruct (Qle_lt_or_eq _ _ Hn) as [Pos|Eq]; [|now symmetry].
        destruct (P Pos) as [[c Ec]|Ec]; rewrite Ec in E; discriminate.
      * intros [C|(_ & C)]; [lia|]. now apply Z.
    + split; [|lia]. intros E. exfalso.
      destruct (Qle_lt_or_eq _ _ Hn) as [Pos|Eq].
      * destruct (P Pos) as [[c Ec]|Ec]; rewrite Ec in E; discriminate.
      * rewrite Z in E by now symmetry. discriminate.
    + intros _ Pos Hb.
      destruct (loop_trim_spec r target) as (c & E & _);
        [now rewrite R3|exact Ht|now rewrite R3|].
      now exists c.
Qed.

Lemma prepare_background_raises_witness :
  (0 < 1080)%Z /\ (0 <= 1920)%Z /\ 0 <= 0 /\ 0 < 25
  /\ _prepare_background (VideoFileClip 1080 1920 0) 25
     = Raise ZeroDivisionError.
Proof.
  split; [lia|]. split; [lia|]. split; [apply Qle_refl|].
  split; [reflexivity|].
  apply (prepare_background_raises 1080 1920 0 25);
    [lia|lia|apply Qle_refl|reflexivity|].
  right. split; [lia|reflexivity].
Defined.

(** X15: a source that already has the 9:16 ratio is not cropped: the
    window kept is the whole frame (fewer than 2^52 repetitions being
    needed). *)
Theorem prepare_background_keeps_9_16 (w0 h0 : Z) (native target : Q) :
  (0 < w0)%Z -> (16 * w0 = 9 * h0)%Z -> 0 < native -> 0 < target ->
  target / native < inject_Z (2 ^ 52) ->
  exists c,
    _prepare_background (VideoFileClip w0 h0 native) target = Ok c
    /\ x1 c = 0%Z /\ x2 c = w0 /\ y1 c = 0%Z /\ y2 c = h0.
Proof.
  intros Hw Hr Hn Ht Hb. assert (Hh : (2 <= h0)%Z) by lia.
  destruct (prepare_background_frame w0 h0 native target ltac:(lia) ltac:(lia))
    as [_ Hframe]. cbn zeta in *.
  destruct (Hframe Hh ltac:(lia))
    as (r & -> & _ & _ & R3 & _ & _ & X1 & X2 & Y1 & Y2).
  destruct (crop_9_16_frame w0 h0 native ltac:(lia) ltac:(lia))
    as (_ & _ & _ & _ & Tall). cbn zeta in *.
  destruct (Tall ltac:(lia)) as (E1 & E2 & E3 & E4 & E5 & E6 & _).
  pose proof (new_height_bounds w0 ltac:(lia)) as Bh. cbn zeta in Bh.
  fold aspect_ratio in E1.
  destruct (loop_trim_spec r target)
    as (c & E & _ & _ & L3 & L4 & L5 & L6 & _);
    [now rewrite R3|exact Ht|now rewrite R3|].
  exists c. split; [exact E|].
  rewrite L3, L4, L5, L6, X1, X2, Y1, Y2. repeat split; lia.
Qed.

Lemma prepare_background_keeps_9_16_witness :
  (0 < 1080)%Z /\ (16 * 1080 = 9 * 1920)%Z /\ 0 < 12 /\ 0 < 30
  /\ 30 / 12 < inject_Z (2 ^ 52)
  /\ exists c,
       _prepare_background (VideoFileClip 1080 1920 12) 30 = Ok c
       /\ x1 c = 0%Z /\ x2 c = 1080%Z /\ y1 c = 0%Z /\ y2 c = 1920%Z.
Proof.
  split; [lia|]. split; [lia|]. split; [reflexivity|]. split; [reflexivity|].
  split; [reflexivity|].
  apply (prepare_background_keeps_9_16 1080 1920 12 30);
    [lia|lia|reflexivity|reflexivity|reflexivity].
Defined.

End BackgroundEdges.

(** ** The agents: paper content and video creation *)

Section PaperContent.

Import Agents.

Variable lower : str -> str.

Lemma split_on_first_line (s : str) :
  exists rest, split_on 10 s = first_line s :: rest.
Proof.
  induction s as [|c t (rest & IH)]; [now exists []|].
  cbn [split_on first_line]. destruct (c =? 10)%N; [now eexists|].
  rewrite IH. now eexists.
Qed.

Lemma first_line_no_newline (s : str) : contains [10%N] (first_line s) = false.
Proof.
  induction s as [|c t IH]; [reflexivity|].
  cbn [first_line]. destruct (c =? 10)%N eqn:E; [reflexivity|].
  cbn [contains startswith]. rewrite IH, N.eqb_sym, E. reflexivity.
Qed.

Lemma skipn_cons_nth {A} (l : list A) :
  forall i x r, skipn i l = x :: r ->
    nth_error l i = Some x /\ skipn (S i) l = r.
Proof.
  induction l as [|a l IH]; intros [|i] x r H; try discriminate.
  - cbn in H. injection H as -> ->. now split.
  - cbn [skipn] in H. now apply IH.
Qed.

Lemma find_abstract_spec (all_lines : list str) :
  forall lines i, skipn i all_lines = lines ->
    (find_abstract lower lines all_lines i = []
     /\ Forall (fun l => contains (lit "abstract") (lower l) = false) lines)
    \/ (exists j line,
          nth_error all_lines j = Some line
          /\ contains (lit "abstract") (lower line) = true
          /\ find_abstract lower lines all_lines i
             = join (lit " ") (firstn 9 (skipn (S j) all_lines))).
Proof.
  induction lines as [|line rest IH]; intros i H.
  - left. split; [reflexivity|constructor].
  - destruct (skipn_cons_nth _ _ _ _ H) as [Hn Hr].
    cbn [find_abstract].
    destruct (contains (lit "abstract") (lower line)) eqn:E.
    + right. exists i, line. split; [exact Hn|]. split; [exact E|].
      unfold slice. replace (i + 10 - (i + 1))%nat with 9%nat by lia.
      now rewrite Nat.add_1_r.
    + destruct (IH (S i) Hr) as [[H1 H2]|H1].
      * left. split; [exact H1|]. now constructor.
      * right. exact H1.
Qed.

End PaperContent.

(** X16: the title [extract_content] reports is the first line of the
    document's text, stripped: it contains no newline and no outer
    whitespace, and for a document without text it is empty; the fallback
    title of the source is never used. *)
Theorem extract_content_title (lower : str -> str) (pages : list str) :
  Agents.title (Agents.extract_content lower pages)
  = strip (first_line (concat pages))
  /\ contains [10%N] (Agents.title (Agents.extract_content lower pages)) = false
  /\ leading_ws (Agents.title (Agents.extract_content lower pages)) = false
  /\ trailing_ws (Agents.title (Agents.extract_content lower pages)) = false
  /\ (concat pages = [] ->
      Agents.title (Agents.extract_content lower pages) = []).
Proof.
  assert (E : Agents.title (Agents.extract_content lower pages)
              = strip (first_line (concat pages))).
  { unfold Agents.extract_content. cbn [Agents.title].
    destruct (split_on_first_line (concat pages)) as [rest ->]. reflexivity. }
  rewrite E. split; [reflexivity|]. split.
  - apply strip_contains, first_line_no_newline.
  - split; [apply strip_leading|]. split; [apply strip_trailing|].
    intros ->. reflexivity.
Qed.

(** X17: the abstract [extract_content] reports is empty when no line of
    the text contains ["abstract"] in lower case; otherwise its words are
    the words of at most nine lines, those that follow a line containing
    it. *)
Theorem extract_content_abstract (lower : str -> str) (pages : list str) :
  let lines := split_on 10 (concat pages) in
  let abstract := Agents.abstract (Agents.extract_content lower pages) in
  (abstract = []
   /\ forall l, In l lines -> contains (lit "abstract") (lower l) = false)
  \/ (exists j line,
        nth_error lines j = Some line
        /\ contains (lit "abstract") (lower line) = true
        /\ (length (firstn 9 (skipn (S j) lines)) <= 9)%nat
        /\ split abstract
           = concat (map split (firstn 9 (skipn (S j) lines)))).
Proof.
  cbn zeta. unfold Agents.extract_content. cbn [Agents.abstract].
  destruct (find_abstract_spec lower (split_on 10 (concat pages))
              (split_on 10 (concat pages)) 0 eq_refl)
    as [[H1 H2]|(j & line & H1 & H2 & H3)].
  - left. rewrite H1. split; [reflexivity|]. now apply Forall_forall.
  - right. exists j, line. split; [exact H1|]. split; [exact H2|]. split.
    + rewrite length_firstn. lia.
    + rewrite H3, split_strip. apply split_join.
Qed.



(** X19: a [VoiceGenerator] can only be constructed for the openai service
    and with a non-empty API key; so [generate_audio] on a constructed
    generator never takes its not-implemented branch: it sends exactly one
    request. *)
Theorem voice_generator_constructed
    (api_key env_key : option str) (service_name : str) (client : result unit)
    (g : VoiceGenerator.voice_generator)
    (speech_create : VoiceGenerator.speech_request -> result unit)
    (stream_to_file : str -> result unit) (path_str : str -> str)
    (temp_path text : str) (output_path : option str) (voice : str)
    (speed : PyFloat.float) :
  VoiceGenerator.__init__ api_key env_key service_name client = inl g ->
  VoiceGenerator.service g = lit "openai"
  /\ VoiceGenerator.api_key g <> []
  /\ (api_key = Some (VoiceGenerator.api_key g)
      \/ env_key = Some (VoiceGenerator.api_key g))
  /\ length (fst (VoiceGenerator.generate_audio speech_create stream_to_file
                    path_str temp_path (VoiceGenerator.service g) text
                    output_path voice speed)) = 1%nat.
Proof.
  unfold VoiceGenerator.__init__.
  destruct (in_list service_name [lit "openai"]) eqn:E; [|discriminate].
  destruct (VoiceGenerator.or_str api_key env_key) as [[|c t]|] eqn:K;
    try discriminate.
  destruct client; [|discriminate].
  intros H. injection H as <-. cbn [VoiceGenerator.service VoiceGenerator.api_key].
  split; [now apply in_list_singleton|]. split; [discriminate|]. split.
  - unfold VoiceGenerator.or_str in K.
    destruct api_key as [[|k0 key]|]; [now right|left; exact K|now right].
  - unfold VoiceGenerator.generate_audio. rewrite E.
    unfold VoiceGenerator._generate_openai.
    destruct (speech_create _); [|reflexivity].
    destruct (stream_to_file _); reflexivity.
Qed.

Lemma voice_generator_constructed_witness :
  VoiceGenerator.__init__ None (Some (lit "sk-test")) (lit "openai") (Ok tt)
  = inl (VoiceGenerator.mk_voice_generator (lit "openai") (lit "sk-test"))
  /\ length (fst (VoiceGenerator.generate_audio
                    (fun _ => Raise APIError) (fun _ => Ok tt) (fun p => p)
                    (lit "temp/narration.mp3") (lit "openai") (lit "hello")
                    None (lit "nova") (PyFloat.Finite 1))) = 1%nat.
Proof.
  split; [reflexivity|].
  exact (proj2 (proj2 (proj2
    (voice_generator_constructed None (Some (lit "sk-test")) (lit "openai")
       (Ok tt)
       (VoiceGenerator.mk_voice_generator (lit "openai") (lit "sk-test"))
       (fun _ => Raise APIError) (fun _ => Ok tt) (fun p => p)
       (lit "temp/narration.mp3") (lit "hello") None (lit "nova")
       (PyFloat.Finite 1) eq_refl)))).
Defined.
